(** * SORT material graph: operator nodes (src/material/operation_node.cpp)

    A shallow embedding of the operator nodes of SORT's material system:
    pull evaluation ([GetNodeValue]), push evaluation ([UpdateBSDF]) and
    the validation of operator nodes ([OperatorNode::CheckValidation]).

    The C++ [float] is IEEE-754 binary32; it is modelled with the
    Standard Library's executable specification of IEEE arithmetic
    ([SpecFloat]) at precision 24 and maximal exponent 128, so that every
    definition below evaluates on concrete inputs with the roundings of
    the program. *)

From Stdlib Require Import ZArith Bool Lia Ascii String.
From Stdlib Require Import Floats.SpecFloat.
From stdpp Require Import base option list strings gmap.

Local Open Scope Z_scope.

(** ** binary32 arithmetic *)

Module Float32.

Definition prec : Z := 24.
Definition emax : Z := 128.

Definition float : Type := spec_float.

Definition add : float -> float -> float := SFadd prec emax.
Definition sub : float -> float -> float := SFsub prec emax.
Definition mul : float -> float -> float := SFmul prec emax.
Definition div : float -> float -> float := SFdiv prec emax.

(** The C++ comparison [a == b] on floats. *)
Definition eqb : float -> float -> bool := SFeqb.

(** An integer constant, as [1.0f] or [2.0f]. *)
Definition of_Z (n : Z) : float := binary_normalize prec emax n 0 false.

(** A decimal literal [num/den], rounded to the nearest binary32 value,
    as [0.3f] = [lit 3 10]. *)
Definition lit (num den : Z) : float := div (of_Z num) (of_Z den).

(** [m * 2^-24], the grid of binary32 values of [0, 1] whose distance to
    [1] is itself a binary32 value. *)
Definition dyadic24 (m : Z) : float := binary_normalize prec emax m (-24) false.

(** The record of a shifted mantissa with no bit lost. *)
Definition exact_record (m : Z) : shr_record := Build_shr_record m false false.

Definition zero : float := S754_zero false.
Definition one : float := of_Z 1.
Definition two : float := of_Z 2.

End Float32.

Import Float32.

Declare Scope f32_scope.
Delimit Scope f32_scope with f32.
Bind Scope f32_scope with float.
Infix "+" := Float32.add : f32_scope.
Infix "-" := Float32.sub : f32_scope.
Infix "*" := Float32.mul : f32_scope.

(** ** Values and weights

    [MaterialPropertyValue] and [Spectrum] are declared in headers that are
    not part of operation_node.cpp; the operations this file uses on them
    are modelled below. *)

(** Modelled from the spec: the struct [MaterialPropertyValue] (declared in
    material_node.h, missing here). "All numeric values are 3-or-4-component
    (color/vector) quantities; operations apply component-wise". The code reads
    its members [x], [y], [z] and builds it from four floats. *)
Record MaterialPropertyValue : Type := MkValue
  { x : float; y : float; z : float; w : float }.

(** Modelled from the spec: the constructor [MaterialPropertyValue(float)],
    used by [SORTNodeOneMinus] for the constant of "[1 - a]" component-wise. *)
Definition value_of_float (f : float) : MaterialPropertyValue := MkValue f f f f.

(** Modelled from the spec: [operator+], [operator-] and [operator*] of
    [MaterialPropertyValue] (missing), component-wise. *)
Definition value_add (a b : MaterialPropertyValue) : MaterialPropertyValue :=
  MkValue (x a + x b) (y a + y b) (z a + z b) (w a + w b).

Definition value_sub (a b : MaterialPropertyValue) : MaterialPropertyValue :=
  MkValue (x a - x b) (y a - y b) (z a - z b) (w a - w b).

Definition value_mul (a b : MaterialPropertyValue) : MaterialPropertyValue :=
  MkValue (x a * x b) (y a * y b) (z a * z b) (w a * w b).

(** Modelled from the spec: [operator*(float)] of [MaterialPropertyValue]
    (missing): every component times the scalar. *)
Definition value_scale (a : MaterialPropertyValue) (f : float) : MaterialPropertyValue :=
  MkValue (x a * f) (y a * f) (z a * f) (w a * f).

Declare Scope value_scope.
Delimit Scope value_scope with val.
Bind Scope value_scope with MaterialPropertyValue.
Infix "+" := value_add : value_scope.
Infix "-" := value_sub : value_scope.
Infix "*" := value_mul : value_scope.
Infix "*:" := value_scale : value_scope.

(** Modelled from the spec: the class [Spectrum] (spectrum/spectrum.h,
    missing): "a color/vector multiplier propagated down the push traversal",
    an RGB triple. *)
Record Spectrum : Type := MkSpectrum { r : float; g : float; b : float }.

(** Modelled from the spec: [Spectrum::operator*(float)] (missing), the
    weight "scaled by" a scalar, component-wise. *)
Definition spectrum_scale (s : Spectrum) (f : float) : Spectrum :=
  MkSpectrum (r s * f) (g s * f) (b s * f).

(** Modelled from the spec: [Spectrum::IsBlack] (missing): "the incoming
    weight is the zero color". The comparison is the one of floats, so a
    negative zero is a zero. *)
Definition IsBlack (s : Spectrum) : bool :=
  eqb (r s) zero && eqb (g s) zero && eqb (b s) zero.

Declare Scope spectrum_scope.
Delimit Scope spectrum_scope with spectrum.
Bind Scope spectrum_scope with Spectrum.
Infix "*:" := spectrum_scale : spectrum_scope.

(** ** Node types

    The enumerators of [MAT_NODE_TYPE] are declared in material_node.h, which
    is not among the sources: their values are parameters. The type is a bit
    mask, tested with [type & MAT_NODE_BXDF]. *)
Class MAT_NODE_TYPE : Type := MkNodeTypes
  { MAT_NODE_CONSTANT : Z; MAT_NODE_BXDF : Z }.

(** The C++ condition [type & flag]: some bit of [flag] is set in [type]. *)
Definition has_flag (type flag : Z) : bool := negb (Z.land type flag =? 0).

(** ** The interface of a node and its properties *)

Module MaterialNode.
Section Interface.
Context {Bsdf : Type}.

(** The virtual methods of [MaterialNode], as the object a
    [MaterialNode*] points to answers them. [UpdateBSDF] returns the
    accumulator it leaves behind, or [None] when the call dereferences a
    null node pointer. [GetNodeValue] and [CheckValidation] receive the
    [Bsdf] and the graph read-only. *)
Record t : Type := Mk
  { getNodeType : Z;
    CheckValidation : bool;
    UpdateBSDF : Bsdf -> Spectrum -> option Bsdf;
    GetNodeValue : Bsdf -> MaterialPropertyValue }.
End Interface.
Arguments t : clear implicits.
End MaterialNode.

Section Property.
Context {Bsdf : Type}.

(** [MaterialNodeProperty]: the literal [value] and the node bound to the
    socket, [None] for a null pointer. *)
Record MaterialNodeProperty : Type := MkProperty
  { node : option (MaterialNode.t Bsdf); value : MaterialPropertyValue }.

(** Modelled from the spec: [MaterialNodeProperty::GetPropertyValue]
    (material_node.cpp, missing): "if literal, returns it; if referencing a
    node, delegates to that node's pull-evaluation". *)
Definition GetPropertyValue (p : MaterialNodeProperty) (bsdf : Bsdf)
  : MaterialPropertyValue :=
  match node p with
  | Some n => MaterialNode.GetNodeValue n bsdf
  | None => value p
  end.

(** [p.node ? p.node->getNodeType() : MAT_NODE_CONSTANT], as written in
    [OperatorNode::CheckValidation] and [MutiplyNode::UpdateBSDF]. *)
Definition referenced_type `{MAT_NODE_TYPE} (p : MaterialNodeProperty) : Z :=
  match node p with
  | Some n => MaterialNode.getNodeType n
  | None => MAT_NODE_CONSTANT
  end.

End Property.

Arguments MaterialNodeProperty : clear implicits.

(** ** The base class

    [MaterialNode] keeps the registered properties in [m_props] (a map from
    the property's name to the property) and the flag [m_node_valid]. *)

Module MaterialNodeBase.
Section Methods.
Context {Bsdf : Type}.

Record t : Type := Mk
  { m_props : gmap string (MaterialNodeProperty Bsdf);
    m_node_valid : bool }.

(** Modelled from the spec: [MaterialNode::CheckValidation]
    (material_node.cpp, missing): the node "recurses into referenced
    nodes" and "a single bad node invalidates the whole material": the
    result is the conjunction of the validations of the bound nodes. A
    property of this model always holds a literal, so the node's own
    "structural completeness" asks nothing more, and a graph built from
    node objects has no cycle for the traversal to guard against. *)
Definition CheckValidation (this : t) : bool :=
  forallb
    (fun input : string * MaterialNodeProperty Bsdf =>
       match node input.2 with
       | Some n => MaterialNode.CheckValidation n
       | None => true
       end)
    (map_to_list (m_props this)).
End Methods.
Arguments t : clear implicits.
End MaterialNodeBase.

(** ** [OperatorNode] *)

Module OperatorNode.
Section Methods.
Context {Bsdf : Type} `{MAT_NODE_TYPE}.

(** The loop of [OperatorNode::CheckValidation] over the inputs that are
    left, carrying [m_node_valid]: a BXDF input stores [false] and
    breaks. *)
Fixpoint for_inputs (inputs : list (string * MaterialNodeProperty Bsdf))
    (m_node_valid : bool) : bool :=
  match inputs with
  | [] => m_node_valid
  | input :: inputs' =>
      let type := referenced_type input.2 in
      if has_flag type MAT_NODE_BXDF then false
      else for_inputs inputs' m_node_valid
  end.

(** [bool OperatorNode::CheckValidation()]: the object after the call
    and the value returned. *)
Definition CheckValidation (this : MaterialNodeBase.t Bsdf)
  : MaterialNodeBase.t Bsdf * bool :=
  let m_node_valid := MaterialNodeBase.CheckValidation this in
  let m_node_valid :=
    for_inputs (map_to_list (MaterialNodeBase.m_props this)) m_node_valid in
  (MaterialNodeBase.Mk (MaterialNodeBase.m_props this) m_node_valid,
   m_node_valid).

(** An object of a class derived from [OperatorNode], seen through a
    [MaterialNode*]: [CheckValidation] is overridden, the other methods
    are those of [inherited]. *)
Definition as_node (inherited : MaterialNode.t Bsdf)
    (this : MaterialNodeBase.t Bsdf) : MaterialNode.t Bsdf :=
  MaterialNode.Mk
    (MaterialNode.getNodeType inherited)
    (CheckValidation this).2
    (MaterialNode.UpdateBSDF inherited)
    (MaterialNode.GetNodeValue inherited).
End Methods.
End OperatorNode.

(** ** The nodes of operation_node.cpp

    Each class is a record of its property members. The constructor's
    [REGISTER_MATERIALNODE_PROPERTY( name , member )] enters the member in
    [m_props] under [name]. [as_node] is the object seen through a
    [MaterialNode*]: the methods the class defines in operation_node.cpp
    replace those of [inherited], which stands for what the class takes from
    its header and its base classes. *)

Module AddNode.
Section Methods.
Context {Bsdf : Type}.

Record t : Type := Mk
  { src0 : MaterialNodeProperty Bsdf; src1 : MaterialNodeProperty Bsdf }.

Definition m_props (this : t) : gmap string (MaterialNodeProperty Bsdf) :=
  <["Color2" := src1 this]> (<["Color1" := src0 this]> ∅).

Definition GetNodeValue (this : t) (bsdf : Bsdf) : MaterialPropertyValue :=
  (GetPropertyValue (src0 this) bsdf + GetPropertyValue (src1 this) bsdf)%val.

Definition as_node (inherited : MaterialNode.t Bsdf) (this : t)
  : MaterialNode.t Bsdf :=
  MaterialNode.Mk
    (MaterialNode.getNodeType inherited)
    (MaterialNode.CheckValidation inherited)
    (MaterialNode.UpdateBSDF inherited)
    (GetNodeValue this).
End Methods.
Arguments t : clear implicits.
End AddNode.

Module SORTNodeOneMinus.
Section Methods.
Context {Bsdf : Type}.

Record t : Type := Mk { src : MaterialNodeProperty Bsdf }.

Definition m_props (this : t) : gmap string (MaterialNodeProperty Bsdf) :=
  <["Color" := src this]> ∅.

Definition GetNodeValue (this : t) (bsdf : Bsdf) : MaterialPropertyValue :=
  (value_of_float one - GetPropertyValue (src this) bsdf)%val.

Definition as_node (inherited : MaterialNode.t Bsdf) (this : t)
  : MaterialNode.t Bsdf :=
  MaterialNode.Mk
    (MaterialNode.getNodeType inherited)
    (MaterialNode.CheckValidation inherited)
    (MaterialNode.UpdateBSDF inherited)
    (GetNodeValue this).
End Methods.
Arguments t : clear implicits.
End SORTNodeOneMinus.

Module LerpNode.
Section Methods.
Context {Bsdf : Type}.

Record t : Type := Mk
  { src0 : MaterialNodeProperty Bsdf;
    src1 : MaterialNodeProperty Bsdf;
    factor : MaterialNodeProperty Bsdf }.

Definition m_props (this : t) : gmap string (MaterialNodeProperty Bsdf) :=
  <["Factor" := factor this]>
    (<["Color2" := src1 this]> (<["Color1" := src0 this]> ∅)).

Definition UpdateBSDF (this : t) (bsdf : Bsdf) (weight : Spectrum)
  : option Bsdf :=
  if IsBlack weight then Some bsdf
  else
    let f := x (GetPropertyValue (factor this) bsdf) in
    bsdf' ← match node (src0 this) with
            | Some n => MaterialNode.UpdateBSDF n bsdf (weight *: (one - f))%spectrum
            | None => Some bsdf
            end;
    match node (src1 this) with
    | Some n => MaterialNode.UpdateBSDF n bsdf' (weight *: f)%spectrum
    | None => Some bsdf'
    end.

Definition GetNodeValue (this : t) (bsdf : Bsdf) : MaterialPropertyValue :=
  let f := x (GetPropertyValue (factor this) bsdf) in
  (GetPropertyValue (src0 this) bsdf *: (one - f)
   + GetPropertyValue (src1 this) bsdf *: f)%val.

Definition as_node (inherited : MaterialNode.t Bsdf) (this : t)
  : MaterialNode.t Bsdf :=
  MaterialNode.Mk
    (MaterialNode.getNodeType inherited)
    (MaterialNode.CheckValidation inherited)
    (UpdateBSDF this)
    (GetNodeValue this).
End Methods.
Arguments t : clear implicits.
End LerpNode.

Module BlendNode.
Section Methods.
Context {Bsdf : Type}.

Record t : Type := Mk
  { src0 : MaterialNodeProperty Bsdf;
    src1 : MaterialNodeProperty Bsdf;
    factor0 : MaterialNodeProperty Bsdf;
    factor1 : MaterialNodeProperty Bsdf }.

Definition m_props (this : t) : gmap string (MaterialNodeProperty Bsdf) :=
  <["Factor2" := factor1 this]>
    (<["Factor1" := factor0 this]>
       (<["Color2" := src1 this]> (<["Color1" := src0 this]> ∅))).

Definition UpdateBSDF (this : t) (bsdf : Bsdf) (weight : Spectrum)
  : option Bsdf :=
  if IsBlack weight then Some bsdf
  else
    let f0 := x (GetPropertyValue (factor0 this) bsdf) in
    let f1 := y (GetPropertyValue (factor1 this) bsdf) in
    bsdf' ← match node (src0 this) with
            | Some n => MaterialNode.UpdateBSDF n bsdf (weight *: f0)%spectrum
            | None => Some bsdf
            end;
    match node (src1 this) with
    | Some n => MaterialNode.UpdateBSDF n bsdf' (weight *: f1)%spectrum
    | None => Some bsdf'
    end.

Definition GetNodeValue (this : t) (bsdf : Bsdf) : MaterialPropertyValue :=
  let f0 := x (GetPropertyValue (factor0 this) bsdf) in
  let f1 := x (GetPropertyValue (factor1 this) bsdf) in
  (GetPropertyValue (src0 this) bsdf *: f0
   + GetPropertyValue (src1 this) bsdf *: f1)%val.

Definition as_node (inherited : MaterialNode.t Bsdf) (this : t)
  : MaterialNode.t Bsdf :=
  MaterialNode.Mk
    (MaterialNode.getNodeType inherited)
    (MaterialNode.CheckValidation inherited)
    (UpdateBSDF this)
    (GetNodeValue this).
End Methods.
Arguments t : clear implicits.
End BlendNode.

Module MutiplyNode.
Section Methods.
Context {Bsdf : Type} `{MAT_NODE_TYPE}.

Record t : Type := Mk
  { src0 : MaterialNodeProperty Bsdf; src1 : MaterialNodeProperty Bsdf }.

Definition m_props (this : t) : gmap string (MaterialNodeProperty Bsdf) :=
  <["Color2" := src1 this]> (<["Color1" := src0 this]> ∅).

Definition UpdateBSDF (this : t) (bsdf : Bsdf) (weight : Spectrum)
  : option Bsdf :=
  if IsBlack weight then Some bsdf
  else
    let type0 := referenced_type (src0 this) in
    let type1 := referenced_type (src1 this) in
    if has_flag type0 MAT_NODE_BXDF then
      n ← node (src0 this);
      MaterialNode.UpdateBSDF n bsdf
        (weight *: x (GetPropertyValue (src1 this) bsdf))%spectrum
    else if has_flag type1 MAT_NODE_BXDF then
      n ← node (src1 this);
      MaterialNode.UpdateBSDF n bsdf
        (weight *: x (GetPropertyValue (src0 this) bsdf))%spectrum
    else Some bsdf.

Definition GetNodeValue (this : t) (bsdf : Bsdf) : MaterialPropertyValue :=
  (GetPropertyValue (src0 this) bsdf * GetPropertyValue (src1 this) bsdf)%val.

Definition as_node (inherited : MaterialNode.t Bsdf) (this : t)
  : MaterialNode.t Bsdf :=
  MaterialNode.Mk
    (MaterialNode.getNodeType inherited)
    (MaterialNode.CheckValidation inherited)
    (UpdateBSDF this)
    (GetNodeValue this).
End Methods.
Arguments t : clear implicits.
End MutiplyNode.

Module GammaToLinearNode.
Section Methods.
Context {Bsdf : Type}.
(** The transfer function [GammaToLinear(float)] is defined outside
    operation_node.cpp. *)
Variable GammaToLinear : float -> float.

Record t : Type := Mk { src : MaterialNodeProperty Bsdf }.

Definition m_props (this : t) : gmap string (MaterialNodeProperty Bsdf) :=
  <["Color" := src this]> ∅.

Definition GetNodeValue (this : t) (bsdf : Bsdf) : MaterialPropertyValue :=
  let tmp := GetPropertyValue (src this) bsdf in
  let tmp := MkValue (GammaToLinear (x tmp)) (y tmp) (z tmp) (w tmp) in
  let tmp := MkValue (x tmp) (GammaToLinear (y tmp)) (z tmp) (w tmp) in
  let tmp := MkValue (x tmp) (y tmp) (GammaToLinear (z tmp)) (w tmp) in
  tmp.

Definition as_node (inherited : MaterialNode.t Bsdf) (this : t)
  : MaterialNode.t Bsdf :=
  MaterialNode.Mk
    (MaterialNode.getNodeType inherited)
    (MaterialNode.CheckValidation inherited)
    (MaterialNode.UpdateBSDF inherited)
    (GetNodeValue this).
End Methods.
Arguments t : clear implicits.
End GammaToLinearNode.

Module LinearToGammaNode.
Section Methods.
Context {Bsdf : Type}.
(** The transfer function [LinearToGamma(float)] is defined outside
    operation_node.cpp. *)
Variable LinearToGamma : float -> float.

Record t : Type := Mk { src : MaterialNodeProperty Bsdf }.

Definition m_props (this : t) : gmap string (MaterialNodeProperty Bsdf) :=
  <["Color" := src this]> ∅.

Definition GetNodeValue (this : t) (bsdf : Bsdf) : MaterialPropertyValue :=
  let tmp := GetPropertyValue (src this) bsdf in
  let tmp := MkValue (LinearToGamma (x tmp)) (y tmp) (z tmp) (w tmp) in
  let tmp := MkValue (x tmp) (LinearToGamma (y tmp)) (z tmp) (w tmp) in
  let tmp := MkValue (x tmp) (y tmp) (LinearToGamma (z tmp)) (w tmp) in
  tmp.

Definition as_node (inherited : MaterialNode.t Bsdf) (this : t)
  : MaterialNode.t Bsdf :=
  MaterialNode.Mk
    (MaterialNode.getNodeType inherited)
    (MaterialNode.CheckValidation inherited)
    (MaterialNode.UpdateBSDF inherited)
    (GetNodeValue this).
End Methods.
Arguments t : clear implicits.
End LinearToGammaNode.

Module NormalDecoderNode.
Section Methods.
Context {Bsdf : Type}.

Record t : Type := Mk { src : MaterialNodeProperty Bsdf }.

Definition m_props (this : t) : gmap string (MaterialNodeProperty Bsdf) :=
  <["Color" := src this]> ∅.

Definition GetNodeValue (this : t) (bsdf : Bsdf) : MaterialPropertyValue :=
  let tmp := GetPropertyValue (src this) bsdf in
  MkValue (two * x tmp - one) (z tmp) (two * y tmp - one) zero.

Definition as_node (inherited : MaterialNode.t Bsdf) (this : t)
  : MaterialNode.t Bsdf :=
  MaterialNode.Mk
    (MaterialNode.getNodeType inherited)
    (MaterialNode.CheckValidation inherited)
    (MaterialNode.UpdateBSDF inherited)
    (GetNodeValue this).
End Methods.
Arguments t : clear implicits.
End NormalDecoderNode.

(** ** Nodes outside operation_node.cpp *)

Module MaterialNodeBase_node.
Section Methods.
Context {Bsdf : Type}.

(** Modelled from the spec: an object of a class that keeps
    [MaterialNode::CheckValidation] (a constant node, for one), seen
    through a [MaterialNode*]. *)
Definition as_node (inherited : MaterialNode.t Bsdf)
    (this : MaterialNodeBase.t Bsdf) : MaterialNode.t Bsdf :=
  MaterialNode.Mk
    (MaterialNode.getNodeType inherited)
    (MaterialNodeBase.CheckValidation this)
    (MaterialNode.UpdateBSDF inherited)
    (MaterialNode.GetNodeValue inherited).
End Methods.
End MaterialNodeBase_node.

Section Graphs.
Context {Bsdf : Type} `{MAT_NODE_TYPE}.

(** A property holding a literal, and a property bound to a node. *)
Definition literal (v : MaterialPropertyValue) : MaterialNodeProperty Bsdf :=
  MkProperty None v.

Definition bound (n : MaterialNode.t Bsdf) : MaterialNodeProperty Bsdf :=
  MkProperty (Some n) (value_of_float zero).

(** Modelled from the spec: a constant node ([ConstantColor],
    [ConstantScalar] of the spec's scenario; the classes are not in
    operation_node.cpp): its type is [MAT_NODE_CONSTANT], its pull
    evaluation returns its value, and it takes no part in the push
    traversal. *)
Definition ConstantNode (v : MaterialPropertyValue) : MaterialNode.t Bsdf :=
  MaterialNode.Mk MAT_NODE_CONSTANT true (fun bsdf _ => Some bsdf) (fun _ => v).

(** An Operator node is validated by [OperatorNode::CheckValidation]; a
    node [leads_to_bxdf] when the validation of the graph below it meets an
    Operator node with a binding to a BXDF-typed node, through bindings of
    Operator nodes and of nodes that keep the validation of the base
    class. *)
Inductive leads_to_bxdf : MaterialNode.t Bsdf -> Prop :=
| operator_binds_bxdf inherited this name p n :
    MaterialNodeBase.m_props this !! name = Some p ->
    node p = Some n ->
    has_flag (MaterialNode.getNodeType n) MAT_NODE_BXDF = true ->
    leads_to_bxdf (OperatorNode.as_node inherited this)
| operator_binds_below inherited this name p n :
    MaterialNodeBase.m_props this !! name = Some p ->
    node p = Some n ->
    leads_to_bxdf n ->
    leads_to_bxdf (OperatorNode.as_node inherited this)
| base_binds_below inherited this name p n :
    MaterialNodeBase.m_props this !! name = Some p ->
    node p = Some n ->
    leads_to_bxdf n ->
    leads_to_bxdf (MaterialNodeBase_node.as_node inherited this).
End Graphs.

(** The claims of the specification as it words them, to be compared with
    the methods above. *)
Section Claimed.
Context {Bsdf : Type}.

(** "Blend(a, b, f0, f1): [a·f0 + b·f0] (both terms use [f0]'s first
    component)". *)
Definition BlendNode_GetNodeValue_claimed (this : BlendNode.t Bsdf)
    (bsdf : Bsdf) : MaterialPropertyValue :=
  let f0 := x (GetPropertyValue (BlendNode.factor0 this) bsdf) in
  (GetPropertyValue (BlendNode.src0 this) bsdf *: f0
   + GetPropertyValue (BlendNode.src1 this) bsdf *: f0)%val.

(** "[f] denotes a scalar factor extracted from a bound property's first
    component"; "recurse into [a]-child with [weight·f0], [b]-child with
    [weight·f1]". *)
Definition BlendNode_UpdateBSDF_claimed (this : BlendNode.t Bsdf)
    (bsdf : Bsdf) (weight : Spectrum) : option Bsdf :=
  if IsBlack weight then Some bsdf
  else
    let f0 := x (GetPropertyValue (BlendNode.factor0 this) bsdf) in
    let f1 := x (GetPropertyValue (BlendNode.factor1 this) bsdf) in
    bsdf' ← match node (BlendNode.src0 this) with
            | Some n => MaterialNode.UpdateBSDF n bsdf (weight *: f0)%spectrum
            | None => Some bsdf
            end;
    match node (BlendNode.src1 this) with
    | Some n => MaterialNode.UpdateBSDF n bsdf' (weight *: f1)%spectrum
    | None => Some bsdf'
    end.
End Claimed.

(** ** Concrete graphs *)

Module Fixtures.

(** One choice of the enumerators of [MAT_NODE_TYPE] in which
    [MAT_NODE_BXDF] is a bit of its own. *)
Definition types : MAT_NODE_TYPE := MkNodeTypes 1 4.

(** Modelled from the spec: the BSDF accumulator "accumulates weighted
    lobes": the lobes registered so far, each with its weight. *)
Definition Bsdf : Type := list (string * Spectrum).

(** Modelled from the spec: a terminal BSDF-producing node "registers its
    lobe with the given weight directly into the accumulator"; its type is
    the BXDF flag. It records every call it receives. *)
Definition BxdfNode (lobe : string) : MaterialNode.t Bsdf :=
  MaterialNode.Mk (@MAT_NODE_BXDF types) true
    (fun bsdf weight => Some (bsdf ++ [(lobe, weight)]))
    (fun _ => value_of_float zero).

(** What a class of operation_node.cpp inherits, in these graphs: a type
    without the BXDF flag, a push evaluation that does nothing. *)
Definition inherited : MaterialNode.t Bsdf :=
  MaterialNode.Mk 8 true (fun bsdf _ => Some bsdf) (fun _ => value_of_float zero).

Definition white : Spectrum := MkSpectrum one one one.
Definition black : Spectrum := MkSpectrum zero zero zero.

Definition half : float := lit 1 2.

(** Blend of two lobes, [Factor1] = 1 and [Factor2] bound to a constant
    colour node whose value is (1, 0, 0): red. *)
Definition blend_red_factor : BlendNode.t Bsdf :=
  BlendNode.Mk
    (bound (BxdfNode "a")) (bound (BxdfNode "b"))
    (literal (value_of_float one))
    (bound (@ConstantNode Bsdf types (MkValue one zero zero zero))).

(** Blend of two literal colours (1,1,1,1) with factors 1 and 0. *)
Definition blend_literals : BlendNode.t unit :=
  BlendNode.Mk
    (literal (value_of_float one)) (literal (value_of_float one))
    (literal (value_of_float one)) (literal (value_of_float zero)).

(** Blend of two literal colours with both factors one half. *)
Definition blend_same_factors : BlendNode.t unit :=
  BlendNode.Mk
    (literal (value_of_float one)) (literal (MkValue one zero half one))
    (literal (value_of_float half)) (literal (value_of_float half)).

(** Blend of the literal colours (1, 0, 1/2, 1) and (1/2, 1, 1, 0) with
    the factors one half and one quarter. *)
Definition blend_two_factors : BlendNode.t unit :=
  BlendNode.Mk
    (literal (MkValue one zero half one)) (literal (MkValue half one one zero))
    (literal (value_of_float half)) (literal (value_of_float (lit 1 4))).

(** Lerp of two lobes with factor one half. *)
Definition lerp_lobes : LerpNode.t Bsdf :=
  LerpNode.Mk (bound (BxdfNode "a")) (bound (BxdfNode "b"))
    (literal (value_of_float half)).

(** Blend with only its second child bound. *)
Definition blend_one_child : BlendNode.t Bsdf :=
  BlendNode.Mk (literal (value_of_float zero)) (bound (BxdfNode "b"))
    (literal (value_of_float half)) (literal (value_of_float half)).

(** Multiply of a lobe by a literal one half. *)
Definition multiply_lobe : MutiplyNode.t Bsdf :=
  MutiplyNode.Mk (bound (BxdfNode "a")) (literal (value_of_float half)).

(** An Add node (an Operator node) with a lobe bound to [Color2]. *)
Definition add_with_lobe : AddNode.t Bsdf :=
  AddNode.Mk (literal (value_of_float one)) (bound (BxdfNode "a")).

(** An Add node with two literals. *)
Definition add_literals : AddNode.t Bsdf :=
  AddNode.Mk (literal (value_of_float one)) (literal (value_of_float half)).

(** [2^-30], a binary32 value of [0, 1]. *)
Definition tiny : float := lit 1 1073741824.

(** OneMinus applied to the output of OneMinus applied to [p]. *)
Definition one_minus_twice (p : MaterialNodeProperty Bsdf)
  : SORTNodeOneMinus.t Bsdf :=
  SORTNodeOneMinus.Mk
    (bound (SORTNodeOneMinus.as_node inherited (SORTNodeOneMinus.Mk p))).

(** The state of the [MaterialNode] part of an Add node before
    validation. *)
Definition add_base (this : AddNode.t Bsdf) : MaterialNodeBase.t Bsdf :=
  MaterialNodeBase.Mk (AddNode.m_props this) true.

End Fixtures.

(** ** Predicates on binary32 values *)

(** A binary32 value: a canonical mantissa and exponent, a zero, an
    infinity or a NaN. *)
Definition is_float (v : float) : bool := valid_binary prec emax v.

(** Neither an infinity nor a NaN. *)
Definition is_finite (v : float) : bool :=
  match v with
  | S754_zero _ | S754_finite _ _ _ => true
  | S754_infinity _ | S754_nan => false
  end.

(** Every component is a binary32 value. *)
Definition is_float_value (v : MaterialPropertyValue) : bool :=
  is_float (x v) && is_float (y v) && is_float (z v) && is_float (w v).

(** No component is an infinity or a NaN. *)
Definition is_finite_value (v : MaterialPropertyValue) : bool :=
  is_finite (x v) && is_finite (y v) && is_finite (z v) && is_finite (w v).

(** No component is a negative zero. *)
Definition no_negative_zero (v : MaterialPropertyValue) : Prop :=
  x v <> S754_zero true /\ y v <> S754_zero true
  /\ z v <> S754_zero true /\ w v <> S754_zero true.

Definition is_float_spectrum (s : Spectrum) : bool :=
  is_float (r s) && is_float (g s) && is_float (b s).

Definition is_finite_spectrum (s : Spectrum) : bool :=
  is_finite (r s) && is_finite (g s) && is_finite (b s).

(** A node whose push evaluation returns at once on a black weight, as the
    routers of operation_node.cpp do. *)
Definition prunes_black {Bsdf : Type} (n : MaterialNode.t Bsdf) : Prop :=
  forall (acc : Bsdf) (weight : Spectrum),
    IsBlack weight = true -> MaterialNode.UpdateBSDF n acc weight = Some acc.


Section ValidationTerms.
Context {Bsdf : Type} `{MAT_NODE_TYPE}.

(** The validation a bound node answers, [true] for an unbound property. *)
Definition bound_valid (p : MaterialNodeProperty Bsdf) : bool :=
  match node p with
  | Some n => MaterialNode.CheckValidation n
  | None => true
  end.

(** The test of the loop of [OperatorNode::CheckValidation] on one
    property. *)
Definition bxdf_input (p : MaterialNodeProperty Bsdf) : bool :=
  has_flag (referenced_type p) MAT_NODE_BXDF.
End ValidationTerms.

(** ** String helpers (strhelper.cpp)

    [std::string] is a Rocq [string]; an exception thrown by [substr] is
    [None]. *)

Module strhelper.

(** [str.find_first_of( t )] for a single character: the index of its first
    occurrence, [None] for [std::string::npos]. *)
Fixpoint find_first_of (str : string) (t : ascii) : option nat :=
  match str with
  | EmptyString => None
  | String c str' =>
      if Ascii.eqb c t then Some 0%nat else S <$> find_first_of str' t
  end.

(** [(unsigned)std::string::npos] *)
Definition unsigned_npos : Z := 2 ^ 32 - 1.

(** [unsigned id = (int)str.find_first_of( t )]: the index is cut to 32
    bits, and [npos] becomes [(unsigned)-1]. *)
Definition to_unsigned (found : option nat) : Z :=
  match found with
  | Some p => Z.of_nat p mod 2 ^ 32
  | None => unsigned_npos
  end.

Definition size (str : string) : Z := Z.of_nat (String.length str).

Fixpoint drop (n : nat) (str : string) : string :=
  match n, str with
  | O, _ => str
  | S n', String _ str' => drop n' str'
  | S _, EmptyString => EmptyString
  end.

Fixpoint take (n : nat) (str : string) : string :=
  match n, str with
  | O, _ => EmptyString
  | S n', String c str' => String c (take n' str')
  | S _, EmptyString => EmptyString
  end.

(** [str.substr( pos , n )]: the characters from [pos], [n] of them or as
    many as there are; [None] stands for the [std::out_of_range] thrown when
    [pos] is past the end. [n = None] is [std::string::npos]. *)
Definition substr (str : string) (pos : Z) (n : option Z) : option string :=
  if size str <? pos then None
  else
    let rest := size str - pos in
    let len := match n with Some n => Z.min n rest | None => rest end in
    Some (take (Z.to_nat len) (drop (Z.to_nat pos) str)).

(** The [while( id == 0 )] loop of [NextToken]: [str] when it ends. *)
Fixpoint skip_while_first (str : string) (t : ascii) : string :=
  match str with
  | EmptyString => str
  | String _ str' =>
      if to_unsigned (find_first_of str t) =? 0 then skip_while_first str' t
      else str
  end.

(** [std::string NextToken( std::string& str , char t )]: the token
    returned and [str] after the call. *)
Definition NextToken (str : string) (t : ascii) : option (string * string) :=
  let str := skip_while_first str t in
  let id := to_unsigned (find_first_of str t) in
  res ← substr str 0 (Some id);
  if id =? unsigned_npos then Some (res, EmptyString)
  else
    str' ← substr str ((id + 1) mod 2 ^ 32) None;
    Some (res, str').

End strhelper.

Notation "a +++ c" := (String.append a c) (at level 60, right associativity).

(** [std::string( k , t )] *)
Fixpoint fill (k : nat) (t : ascii) : string :=
  match k with
  | O => EmptyString
  | S k' => String t (fill k' t)
  end.

(** A string short enough for an index into it to fit the 32 bits of
    [unsigned id], [(unsigned)npos] apart. *)
Definition short (str : string) : Prop := strhelper.size str < 2 ^ 32 - 1.

(** The transforms are built by functions of math/transform.h, which is not
    among the sources: a transform is the call that builds it. *)
Inductive Transform : Type :=
| Transform_default                      (* Transform() *)
| Translate (tx ty tz : float)
| RotateX (angle : float)
| RotateY (angle : float)
| RotateZ (angle : float)
| Scale (s0 s1 s2 : float)
| FromMatrix (m : list float).

Module strparse.
Section Parsers.
(** [(float)atof( t.c_str() )] and [atoi( t.c_str() )], of the C library. *)
Variable atof : string -> float.
Variable atoi : string -> Z.
(** [Spectrum()], the default constructor. *)
Variable Spectrum_default : Spectrum.

Definition space : ascii := " "%char.

(** [s.empty()] *)
Definition empty (s : string) : bool :=
  match s with
  | EmptyString => true
  | String _ _ => false
  end.

(** [t[0]]: the first character, the terminating null of an empty
    string. *)
Definition first_char (t : string) : ascii :=
  match t with
  | String c _ => c
  | EmptyString => Ascii.zero
  end.

(** [Spectrum SpectrumFromStr( const std::string& s )] *)
Definition SpectrumFromStr (s : string) : option Spectrum :=
  if empty s then Some Spectrum_default
  else
    let str := s in
    '(r, str) ← strhelper.NextToken str space;
    '(g, str) ← strhelper.NextToken str space;
    '(b, str) ← strhelper.NextToken str space;
    let fr := atof r in
    let fg := atof g in
    let fb := atof b in
    Some (MkSpectrum fr fg fb).

(** The loop of the ['m'] branch: [n] more entries of the matrix are read
    from [str]. *)
Fixpoint read_matrix (n : nat) (str : string) : option (list float) :=
  match n with
  | O => Some []
  | S n' =>
      '(t, str) ← strhelper.NextToken str space;
      m ← read_matrix n' str;
      Some (atof t :: m)
  end.

(** [Transform TransformFromStr( const std::string& s )]: the transform
    returned and the warnings logged. *)
Definition TransformFromStr (s : string) : option (Transform * list string) :=
  if empty s then
    Some (Transform_default, ["No value set in the transformation"%string])
  else
    let str := s in
    '(t, str) ← strhelper.NextToken str space;
    if Ascii.eqb (first_char t) "t" then
      '(t, str) ← strhelper.NextToken str space;
      let x := atof t in
      '(t, str) ← strhelper.NextToken str space;
      let y := atof t in
      '(t, str) ← strhelper.NextToken str space;
      let z := atof t in
      Some (Translate x y z, [])
    else if Ascii.eqb (first_char t) "r" then
      '(t, str) ← strhelper.NextToken str space;
      let axis := atoi t in
      '(t, str) ← strhelper.NextToken str space;
      let angle := atof t in
      if axis =? 0 then Some (RotateX angle, [])
      else if axis =? 1 then Some (RotateY angle, [])
      else if axis =? 2 then Some (RotateZ angle, [])
      else Some (Transform_default, [])
    else if Ascii.eqb (first_char t) "s" then
      '(t, str) ← strhelper.NextToken str space;
      let s0 := atof t in
      let s1 := s0 in
      let s2 := s0 in
      '(t, str) ← strhelper.NextToken str space;
      if negb (empty str) then
        let s1 := atof t in
        '(t, str) ← strhelper.NextToken str space;
        let s2 := atof t in
        Some (Scale s0 s1 s2, [])
      else Some (Scale s0 s1 s2, [])
    else if Ascii.eqb (first_char t) "m" then
      m ← read_matrix 16 str;
      Some (FromMatrix m, [])
    else Some (Transform_default, []).

End Parsers.
End strparse.

(** ** [ConstantTexture] (constanttexture.h) *)

Module ConstantTexture.
Section Methods.
Variable atof : string -> float.
Variable Spectrum_default : Spectrum.

Record t : Type := Mk { m_Color : Spectrum }.

(** [virtual Spectrum GetColor( int x , int y ) const] *)
Definition GetColor (this : t) (px py : Z) : Spectrum := m_Color this.

(** [virtual Spectrum Evaluate( const Intersection* intersect ) const] *)
Definition Evaluate {Intersection : Type} (this : t) (intersect : Intersection)
  : Spectrum := m_Color this.

(** [ColorProperty::SetValue( const string& value )] on a target that is a
    [ConstantTexture]: the texture after the call. *)
Definition SetValue (m_target : t) (value : string) : option t :=
  color ← strparse.SpectrumFromStr atof Spectrum_default value;
  Some (Mk color).
End Methods.
End ConstantTexture.

(** ** [DisplayManager] (display_mgr.cpp) *)

(** The enumerators of the connection status are declared in display_mgr.h,
    which is not among the sources: their values are parameters. *)
Class CONNECTION_STATUS : Type := MkConnectionStatus
  { CONNECTION_SUCCEED : Z; CONNECTION_FAILED : Z }.

Module DisplayManager.
Section Methods.
(** [Stream] is the state of [m_stream] and of the socket stream it owns;
    [Item] is a [std::shared_ptr<DisplayItemBase>], whose virtual
    [Process( m_stream )] is [Process]. The queue is seen by one thread: the
    lock makes each pop atomic, and no other thread queues meanwhile. *)
Context {Stream Item : Type} `{CONNECTION_STATUS}.
Variable Process : Item -> Stream -> Stream.

Record t : Type := Mk
  { m_status : Z; m_queue : list Item; m_stream : Stream }.

Definition INT_MIN : Z := - 2 ^ 31.

(** The loop [while( cnt-- != 0 )] of [ProcessDisplayQueue]: the queue and
    the stream when it ends, [None] when [cnt--] overflows. *)
Fixpoint process_loop (cnt : Z) (queue : list Item) (stream : Stream)
  : option (list Item * Stream) :=
  if cnt =? 0 then Some (queue, stream)
  else if cnt =? INT_MIN then None
  else
    match queue with
    | [] => Some (queue, stream)
    | item :: queue' => process_loop (cnt - 1) queue' (Process item stream)
    end.

(** [void DisplayManager::ProcessDisplayQueue( int cnt )] *)
Definition ProcessDisplayQueue (this : t) (cnt : Z) : option t :=
  if negb (m_status this =? CONNECTION_SUCCEED) then Some this
  else
    '(queue, stream) ← process_loop cnt (m_queue this) (m_stream this);
    Some (Mk (m_status this) queue stream).

(** [void DisplayManager::QueueDisplayItem( item )] *)
Definition QueueDisplayItem (this : t) (item : Item) : t :=
  Mk (m_status this) (m_queue this ++ [item]) (m_stream this).

End Methods.
Arguments t : clear implicits.
End DisplayManager.

Section DisplayTerms.
Context {Stream Item : Type}.
Variable Process : Item -> Stream -> Stream.

(** The items in the order given, each processed on the stream the one
    before left. *)
Definition process_all (items : list Item) (stream : Stream) : Stream :=
  foldl (fun s item => Process item s) stream items.
End DisplayTerms.

(** ** More concrete inputs *)

Module Samples.

(** The value of the decimal digits a string starts with. *)
Fixpoint digits_value (acc : Z) (t : string) : Z :=
  match t with
  | String c t' =>
      let n := Z.of_nat (nat_of_ascii c) - 48 in
      if (0 <=? n) && (n <=? 9) then digits_value (10 * acc + n) t' else acc
  | EmptyString => acc
  end.

(** What [atoi] and [atof] return on a string of decimal digits. *)
Definition atoi (t : string) : Z := digits_value 0 t.
Definition atof (t : string) : float := of_Z (atoi t).

(** One choice of the enumerators of the connection status. *)
Definition status : CONNECTION_STATUS := MkConnectionStatus 1 2.

(** A stream that records the items processed on it, and an item that is
    its name. *)
Definition Stream : Type := list string.
Definition Process (item : string) (stream : Stream) : Stream := stream ++ [item].

(** A colour of binary32 components, none of them [-0]. *)
Definition colour : MaterialPropertyValue :=
  MkValue Fixtures.half one (lit 3 10) zero.

(** Lerp of the lobe "a" and of a Lerp router, with factor zero. *)
Definition lerp_hard : LerpNode.t Fixtures.Bsdf :=
  LerpNode.Mk (bound (Fixtures.BxdfNode "a"))
    (bound (LerpNode.as_node Fixtures.inherited Fixtures.lerp_lobes))
    (literal (value_of_float zero)).

(** Multiply of two lobes. *)
Definition multiply_lobes : MutiplyNode.t Fixtures.Bsdf :=
  MutiplyNode.Mk (bound (Fixtures.BxdfNode "a")) (bound (Fixtures.BxdfNode "b")).

(** Multiply of a lobe by the literal one. *)
Definition multiply_by_one : MutiplyNode.t Fixtures.Bsdf :=
  MutiplyNode.Mk (bound (Fixtures.BxdfNode "a")) (literal (value_of_float one)).

End Samples.

(** * Properties *)

(** ** Evaluation at concrete values *)

Example one_bits : one = S754_finite false 8388608 (-23).
Proof. reflexivity. Qed.

Example lit_03_bits : lit 3 10 = S754_finite false 10066330 (-25).
Proof. vm_compute. reflexivity. Qed.

Example lit_07_bits : lit 7 10 = S754_finite false 11744051 (-24).
Proof. vm_compute. reflexivity. Qed.

(** [1.0f - 0.3f] is exactly the binary32 value nearest to 0.7. *)
Example one_minus_03 : (one - lit 3 10)%f32 = lit 7 10.
Proof. vm_compute. reflexivity. Qed.

Example IsBlack_black : IsBlack Fixtures.black = true.
Proof. reflexivity. Qed.

Example IsBlack_white : IsBlack Fixtures.white = false.
Proof. reflexivity. Qed.

(** A negative zero compares equal to zero. *)
Example IsBlack_negative_zero :
  IsBlack (MkSpectrum (S754_zero true) zero zero) = true.
Proof. reflexivity. Qed.

(** ** Exact subtractions in binary32

    [1 - x] is exact for the binary32 values [x = m * 2^-24] of [0, 1]: the
    difference is on the same grid. The lemmas follow the rounding of
    [SpecFloat] step by step: alignment ([shl_align]), the shift that drops
    low bits ([shr_fexp]) and the rounding itself, which find nothing to
    round when the bits dropped are zeros. *)

Section Exact.



Lemma iter_pos_iter {A : Type} (f : A -> A) (n : positive) (a : A) :
  SpecFloat.iter_pos f n a = Pos.iter f a n.
Proof.
  revert a. induction n as [n IH|n IH|]; intros a; simpl.
  - rewrite !IH. rewrite <- !Pos.iter_swap. reflexivity.
  - rewrite !IH. reflexivity.
  - reflexivity.
Qed.

Lemma iter_shr_1_exact (k q : positive) :
  Pos.iter shr_1 (exact_record (Zpos (Pos.iter xO q k))) k = exact_record (Zpos q).
Proof.
  induction k as [|k IH] using Pos.peano_ind.
  - reflexivity.
  - rewrite Pos.iter_succ_r. rewrite Pos.iter_succ. simpl shr_1. exact IH.
Qed.

Lemma digits2_iter_xO (q k : positive) :
  digits2_pos (Pos.iter xO q k) = (digits2_pos q + k)%positive.
Proof.
  induction k as [|k IH] using Pos.peano_ind.
  - simpl. lia.
  - rewrite Pos.iter_succ. simpl. rewrite IH. lia.
Qed.

Lemma Zpos_iter_xO (q k : positive) :
  Zpos (Pos.iter xO q k) = Zpos q * 2 ^ Zpos k.
Proof.
  induction k as [|k IH] using Pos.peano_ind.
  - simpl. lia.
  - rewrite Pos.iter_succ, Pos2Z.inj_xO, IH, Pos2Z.inj_succ, Z.pow_succ_r by lia. lia.
Qed.

Lemma digits2_size (p : positive) : digits2_pos p = Pos.size p.
Proof. induction p; simpl; congruence. Qed.

Lemma digits2_bounds (p : positive) :
  2 ^ (Zpos (digits2_pos p) - 1) <= Zpos p < 2 ^ Zpos (digits2_pos p).
Proof.
  rewrite digits2_size. split.
  - pose proof (Pos.size_le p) as Hle.
    apply Pos2Z.pos_le_pos in Hle. rewrite Pos2Z.inj_pow in Hle.
    change (Z.pos p~0) with (2 * Z.pos p) in Hle.
    replace (Zpos (Pos.size p)) with (Z.succ (Zpos (Pos.size p) - 1)) in Hle by lia.
    rewrite Z.pow_succ_r in Hle by lia. lia.
  - pose proof (Pos.size_gt p) as Hgt.
    apply Pos2Z.pos_lt_pos in Hgt. rewrite Pos2Z.inj_pow in Hgt. exact Hgt.
Qed.

Lemma fexp32 (e : Z) : fexp 24 128 e = Z.max (e - 24) (-149).
Proof. reflexivity. Qed.

Lemma shr_fexp_canonical (q : positive) (ez : Z) :
  Zpos (digits2_pos q) = 24 -> -149 <= ez ->
  shr_fexp 24 128 (Zpos q) ez loc_Exact = (exact_record (Zpos q), ez).
Proof.
  intros Hd Hez. unfold shr_fexp.
  change (Zdigits2 (Zpos q)) with (Zpos (digits2_pos q)). rewrite Hd.
  replace (fexp 24 128 (24 + ez) - ez) with 0 by (rewrite fexp32; lia).
  reflexivity.
Qed.

Lemma shr_fexp_wide (q j : positive) (ez : Z) :
  Zpos (digits2_pos q) = 24 -> -149 <= ez ->
  shr_fexp 24 128 (Zpos (Pos.iter xO q j)) (ez - Zpos j) loc_Exact
  = (exact_record (Zpos q), ez).
Proof.
  intros Hd Hez. unfold shr_fexp.
  change (Zdigits2 (Zpos (Pos.iter xO q j)))
    with (Zpos (digits2_pos (Pos.iter xO q j))).
  rewrite digits2_iter_xO, Pos2Z.inj_add, Hd.
  replace (fexp 24 128 (24 + Zpos j + (ez - Zpos j)) - (ez - Zpos j))
    with (Zpos j) by (rewrite fexp32; lia).
  unfold shr.
  change (shr_record_of_loc (Zpos (Pos.iter xO q j)) loc_Exact)
    with (exact_record (Zpos (Pos.iter xO q j))).
  rewrite iter_pos_iter, iter_shr_1_exact. f_equal. lia.
Qed.

Lemma binary_round_aux_exact (m e : Z) (q : positive) (ez : Z) :
  shr_fexp 24 128 m e loc_Exact = (exact_record (Zpos q), ez) ->
  Zpos (digits2_pos q) = 24 -> -149 <= ez <= 104 ->
  binary_round_aux 24 128 false m e loc_Exact = S754_finite false q ez.
Proof.
  intros Hshr Hd Hez. unfold binary_round_aux. rewrite Hshr.
  change (round_nearest_even (shr_m (exact_record (Zpos q)))
            (loc_of_shr_record (exact_record (Zpos q)))) with (Zpos q).
  rewrite shr_fexp_canonical by lia.
  change (shr_m (exact_record (Zpos q))) with (Zpos q). cbv beta iota.
  replace (ez <=? 128 - 24) with true by (symmetry; apply Z.leb_le; lia).
  reflexivity.
Qed.

Lemma Zpos_shiftl (q : positive) (n : N) :
  Zpos (Pos.shiftl q n) = Zpos q * 2 ^ Z.of_N n.
Proof.
  destruct n as [|k]; cbv beta iota delta [Pos.shiftl].
  - change (Z.of_N 0) with 0. lia.
  - apply Zpos_iter_xO.
Qed.

Lemma digits2_shiftl (q : positive) (n : N) :
  Zpos (digits2_pos (Pos.shiftl q n)) = Zpos (digits2_pos q) + Z.of_N n.
Proof.
  destruct n as [|k]; cbv beta iota delta [Pos.shiftl].
  - change (Z.of_N 0) with 0. lia.
  - rewrite digits2_iter_xO. reflexivity.
Qed.

Lemma shl_align_le (mx : positive) (ex ex' : Z) :
  ex' <= ex -> shl_align mx ex ex' = (Pos.shiftl mx (Z.to_N (ex - ex')), ex').
Proof.
  intros Hle. unfold shl_align.
  destruct (ex' - ex) as [|d|d] eqn:Hd; try lia.
  - replace (ex - ex') with 0 by lia. replace ex' with ex by lia. reflexivity.
  - replace (ex - ex') with (Zpos d) by lia. reflexivity.
Qed.

Lemma shl_align_ge (mx : positive) (ex ex' : Z) :
  ex <= ex' -> shl_align mx ex ex' = (mx, ex).
Proof.
  intros Hle. unfold shl_align.
  destruct (ex' - ex) as [|d|d] eqn:Hd; try lia; reflexivity.
Qed.

(** Rounding a value that fits in 24 bits, given with [n] extra low zero
    bits, yields its canonical representation: nothing is lost. *)
Lemma binary_round_shiftl (q : positive) (n : N) (e : Z) :
  let d := Zpos (digits2_pos q) in
  d <= 24 -> -149 <= e + d - 24 <= 104 ->
  binary_round 24 128 false (Pos.shiftl q n) (e - Z.of_N n)
  = S754_finite false (Pos.shiftl q (Z.to_N (24 - d))) (e + d - 24).
Proof.
  intros d Hd He.
  set (q' := Pos.shiftl q (Z.to_N (24 - d))).
  assert (Hq' : Zpos (digits2_pos q') = 24).
  { unfold q'. rewrite digits2_shiftl, Z2N.id by lia. fold d. lia. }
  unfold binary_round. rewrite digits2_shiftl. fold d.
  replace (fexp 24 128 (d + Z.of_N n + (e - Z.of_N n))) with (e + d - 24)
    by (rewrite fexp32; lia).
  destruct (Z.le_gt_cases (Z.of_N n) (24 - d)) as [Hn|Hn].
  - rewrite shl_align_le by lia.
    replace (Pos.shiftl (Pos.shiftl q n) (Z.to_N (e - Z.of_N n - (e + d - 24))))
      with q'.
    + apply (binary_round_aux_exact _ _ q'); [|exact Hq'|lia].
      apply shr_fexp_canonical; [exact Hq'|lia].
    + apply Pos2Z.inj. unfold q'. rewrite !Zpos_shiftl, !Z2N.id by lia.
      rewrite <- Z.mul_assoc, <- Z.pow_add_r by lia. f_equal. f_equal. lia.
  - rewrite shl_align_ge by lia.
    set (j := Z.to_pos (Z.of_N n - (24 - d))).
    assert (Hj : Zpos j = Z.of_N n - (24 - d)) by (unfold j; rewrite Z2Pos.id; lia).
    replace (Pos.shiftl q n) with (Pos.iter xO q' j).
    + replace (e - Z.of_N n) with (e + d - 24 - Zpos j) by lia.
      apply (binary_round_aux_exact _ _ q'); [|exact Hq'|lia].
      apply shr_fexp_wide; [exact Hq'|lia].
    + apply Pos2Z.inj. rewrite Zpos_iter_xO. unfold q'.
      rewrite !Zpos_shiftl, !Z2N.id, Hj by lia.
      rewrite <- Z.mul_assoc, <- Z.pow_add_r by lia. f_equal. f_equal. lia.
Qed.


Lemma digits2_le_24 (p : positive) : Zpos p < 2 ^ 24 -> Zpos (digits2_pos p) <= 24.
Proof.
  intros Hp. pose proof (digits2_bounds p) as [Hlow _].
  assert (Hlt : 2 ^ (Zpos (digits2_pos p) - 1) < 2 ^ 24) by lia.
  apply Z.pow_lt_mono_r_iff in Hlt; lia.
Qed.

Lemma dyadic24_pos (p : positive) :
  Zpos p < 2 ^ 24 ->
  let d := Zpos (digits2_pos p) in
  dyadic24 (Zpos p) = S754_finite false (Pos.shiftl p (Z.to_N (24 - d))) (d - 48).
Proof.
  intros Hp d. pose proof (digits2_le_24 p Hp) as Hd. fold d in Hd.
  change (dyadic24 (Zpos p)) with (binary_round 24 128 false (Pos.shiftl p 0) (-24 - Z.of_N 0)).
  rewrite binary_round_shiftl; fold d; [|lia|lia].
  f_equal. lia.
Qed.

Lemma sub_one_dyadic24 (m : Z) :
  0 <= m <= 2 ^ 24 ->
  (one - dyadic24 m)%f32 = dyadic24 (2 ^ 24 - m).
Proof.
  intros Hm.
  destruct (Z.eq_dec m 0) as [->|Hm0]; [vm_compute; reflexivity|].
  destruct (Z.eq_dec m (2 ^ 24)) as [->|Hm1]; [vm_compute; reflexivity|].
  destruct m as [|p|p]; try lia.
  assert (Hp : Zpos p < 2 ^ 24) by lia.
  pose proof (digits2_le_24 p Hp) as Hd.
  pose proof (Pos2Z.is_pos (digits2_pos p)) as Hd0.
  rewrite (dyadic24_pos p Hp).
  set (d := Zpos (digits2_pos p)) in *.
  set (n := Z.to_pos (2 ^ 24 - Zpos p)).
  assert (Hn : Zpos n = 2 ^ 24 - Zpos p) by (unfold n; rewrite Z2Pos.id; lia).
  rewrite <- Hn.
  assert (Hn24 : Zpos n < 2 ^ 24) by lia.
  rewrite (dyadic24_pos n Hn24).
  change one with (S754_finite false 8388608 (-23)).
  unfold Float32.sub, Float32.prec, Float32.emax.
  cbv beta iota delta [SFsub cond_Zopp].
  replace (Z.min (-23) (d - 48)) with (d - 48) by lia.
  cbv zeta.
  rewrite (shl_align_le 8388608) by lia.
  rewrite (shl_align_le (Pos.shiftl p (Z.to_N (24 - d)))) by lia.
  cbv beta iota delta [fst].
  replace (Zpos (Pos.shiftl 8388608 (Z.to_N (-23 - (d - 48))))
           - Zpos (Pos.shiftl (Pos.shiftl p (Z.to_N (24 - d))) (Z.to_N (d - 48 - (d - 48)))))
    with (Zpos (Pos.shiftl n (Z.to_N (24 - d)))).
  - change (binary_normalize 24 128 (Zpos (Pos.shiftl n (Z.to_N (24 - d)))) (d - 48) false)
      with (binary_round 24 128 false (Pos.shiftl n (Z.to_N (24 - d))) (d - 48)).
    replace (d - 48) with (-24 - Z.of_N (Z.to_N (24 - d))) at 1 by (rewrite Z2N.id; lia).
    pose proof (digits2_le_24 n Hn24) as Hdn.
    pose proof (Pos2Z.is_pos (digits2_pos n)) as Hdn0.
    rewrite binary_round_shiftl by lia.
    f_equal. lia.
  - rewrite !Zpos_shiftl, Hn, !Z2N.id by lia.
    replace (d - 48 - (d - 48)) with 0 by lia.
    replace (-23 - (d - 48)) with (1 + (24 - d)) by lia.
    rewrite Z.pow_add_r by lia.
    change (Zpos 8388608) with (2 ^ 23). change (2 ^ 0) with 1.
    change (2 ^ 1) with 2. change (2 ^ 24) with (2 ^ 23 * 2). lia.
Qed.
End Exact.

(** ** Helper lemmas *)

Lemma bind_Some_r {A : Type} (m : option A) : m ≫= Some = m.
Proof. by destruct m. Qed.

Section Validation.
Context {Bsdf : Type} `{MAT_NODE_TYPE}.

Implicit Types inputs : list (string * MaterialNodeProperty Bsdf).

(** Once [m_node_valid] is false the loop cannot set it again. *)
Lemma for_inputs_false inputs : OperatorNode.for_inputs inputs false = false.
Proof.
  induction inputs as [|input inputs IH]; simpl; [done|].
  by destruct (has_flag _ _).
Qed.

(** One BXDF input anywhere in the list is enough to reject. *)
Lemma for_inputs_bxdf inputs input v :
  input ∈ inputs ->
  has_flag (referenced_type input.2) MAT_NODE_BXDF = true ->
  OperatorNode.for_inputs inputs v = false.
Proof.
  intros Hin Hflag.
  induction inputs as [|input' inputs IH]; [by apply elem_of_nil in Hin|].
  simpl. apply elem_of_cons in Hin as [<-|Hin].
  - by rewrite Hflag.
  - destruct (has_flag (referenced_type input'.2) _); [done|]. by apply IH.
Qed.

(** With no BXDF input the loop leaves [m_node_valid] as it found it. *)
Lemma for_inputs_clean inputs v :
  (forall input, input ∈ inputs ->
     has_flag (referenced_type input.2) MAT_NODE_BXDF = false) ->
  OperatorNode.for_inputs inputs v = v.
Proof.
  induction inputs as [|input inputs IH]; intros Hall; simpl; [done|].
  rewrite (Hall input) by apply list_elem_of_here.
  apply IH. intros i Hi. apply Hall. by apply list_elem_of_further.
Qed.

(** The validation of the base class fails as soon as the validation of
    one bound node fails. *)
Lemma base_CheckValidation_child (this : MaterialNodeBase.t Bsdf) name p n :
  MaterialNodeBase.m_props this !! name = Some p ->
  node p = Some n ->
  MaterialNode.CheckValidation n = false ->
  MaterialNodeBase.CheckValidation this = false.
Proof.
  intros Hlook Hnode Hfalse.
  unfold MaterialNodeBase.CheckValidation.
  apply elem_of_map_to_list in Hlook.
  induction (map_to_list (MaterialNodeBase.m_props this)) as [|input l IH];
    [by apply elem_of_nil in Hlook|].
  simpl. apply elem_of_cons in Hlook as [<-|Hin].
  - simpl. by rewrite Hnode, Hfalse.
  - rewrite (IH Hin). apply andb_false_r.
Qed.

(** The validation of the base class succeeds when no property is bound. *)
Lemma base_CheckValidation_unbound (this : MaterialNodeBase.t Bsdf) :
  (forall name p, MaterialNodeBase.m_props this !! name = Some p -> node p = None) ->
  MaterialNodeBase.CheckValidation this = true.
Proof.
  intros Hall. unfold MaterialNodeBase.CheckValidation.
  assert (Hl : forall input, input ∈ map_to_list (MaterialNodeBase.m_props this) ->
                 node input.2 = None).
  { intros [name p] Hin. apply elem_of_map_to_list in Hin. by eapply Hall. }
  induction (map_to_list (MaterialNodeBase.m_props this)) as [|input l IH];
    [done|].
  simpl. rewrite (Hl input) by apply list_elem_of_here. simpl.
  apply IH. intros i Hi. apply Hl. by apply list_elem_of_further.
Qed.

(** An Operator node with a binding to a BXDF-typed node is rejected,
    whatever the base class answered. *)
Lemma operator_rejects_bxdf (this : MaterialNodeBase.t Bsdf) name p n :
  MaterialNodeBase.m_props this !! name = Some p ->
  node p = Some n ->
  has_flag (MaterialNode.getNodeType n) MAT_NODE_BXDF = true ->
  OperatorNode.CheckValidation this
  = (MaterialNodeBase.Mk (MaterialNodeBase.m_props this) false, false).
Proof.
  intros Hlook Hnode Hflag. unfold OperatorNode.CheckValidation.
  rewrite (for_inputs_bxdf _ (name, p)); [done| |].
  - by apply elem_of_map_to_list.
  - unfold referenced_type. simpl. by rewrite Hnode.
Qed.

(** An Operator node is rejected when the validation of a bound node
    fails. *)
Lemma operator_rejects_invalid_child (this : MaterialNodeBase.t Bsdf) name p n :
  MaterialNodeBase.m_props this !! name = Some p ->
  node p = Some n ->
  MaterialNode.CheckValidation n = false ->
  OperatorNode.CheckValidation this
  = (MaterialNodeBase.Mk (MaterialNodeBase.m_props this) false, false).
Proof.
  intros Hlook Hnode Hfalse. unfold OperatorNode.CheckValidation.
  rewrite (base_CheckValidation_child this name p n) by done.
  by rewrite for_inputs_false.
Qed.

(** The validation of a node that leads to a BXDF node fails. *)
Lemma leads_to_bxdf_invalid (n : MaterialNode.t Bsdf) :
  leads_to_bxdf n -> MaterialNode.CheckValidation n = false.
Proof.
  induction 1 as [inh this name p n Hlook Hnode Hflag
                 |inh this name p n Hlook Hnode _ IH
                 |inh this name p n Hlook Hnode _ IH].
  - change ((OperatorNode.CheckValidation this).2 = false).
    by rewrite (operator_rejects_bxdf this name p n).
  - change ((OperatorNode.CheckValidation this).2 = false).
    by rewrite (operator_rejects_invalid_child this name p n).
  - change (MaterialNodeBase.CheckValidation this = false).
    by apply (base_CheckValidation_child this name p n).
Qed.
End Validation.

(** ** The claims *)

Section Claims.
Context {Bsdf : Type} `{MAT_NODE_TYPE}.

(** C1, as amended. For every Blend node, pull evaluation returns
    [a·f0 + b·f1] component by component: [a] and [b] are the resolved
    values of Color1 and Color2, [f0] is the first component of the
    resolved value of Factor1 and [f1] the first component of the resolved
    value of Factor2. The second term is scaled by [f1], not by [f0]: the
    value is [a·f0 + b·f0] when the two factors agree. *)
Theorem BlendNode_GetNodeValue_two_factors (this : BlendNode.t Bsdf) (bsdf : Bsdf) :
  let ca := GetPropertyValue (BlendNode.src0 this) bsdf in
  let cb := GetPropertyValue (BlendNode.src1 this) bsdf in
  let f0 := x (GetPropertyValue (BlendNode.factor0 this) bsdf) in
  let f1 := x (GetPropertyValue (BlendNode.factor1 this) bsdf) in
  BlendNode.GetNodeValue this bsdf
  = MkValue (x ca * f0 + x cb * f1) (y ca * f0 + y cb * f1)
            (z ca * f0 + z cb * f1) (w ca * f0 + w cb * f1)
  /\ (f1 = f0 ->
      BlendNode.GetNodeValue this bsdf = BlendNode_GetNodeValue_claimed this bsdf).
Proof.
  intros ca cb f0 f1. split.
  - unfold BlendNode.GetNodeValue, value_add, value_scale. cbn [x y z w].
    reflexivity.
  - intros Hsame.
    unfold BlendNode.GetNodeValue, BlendNode_GetNodeValue_claimed.
    fold ca cb f0 f1. by rewrite Hsame.
Qed.

(** C3. For each router node (Lerp, Blend, Multiply), whatever its
    properties and the nodes bound to them, and whatever the accumulator,
    push evaluation with a black weight returns at once: the accumulator
    comes back as it was, and no method of a child is called (a child
    whose [UpdateBSDF] fails or changes the accumulator would show in the
    result). *)
Theorem routers_prune_black_weight
    (lerp : LerpNode.t Bsdf) (blend : BlendNode.t Bsdf)
    (multiply : MutiplyNode.t Bsdf) (bsdf : Bsdf) (weight : Spectrum) :
  IsBlack weight = true ->
  LerpNode.UpdateBSDF lerp bsdf weight = Some bsdf
  /\ BlendNode.UpdateBSDF blend bsdf weight = Some bsdf
  /\ MutiplyNode.UpdateBSDF multiply bsdf weight = Some bsdf.
Proof.
  intros Hblack.
  unfold LerpNode.UpdateBSDF, BlendNode.UpdateBSDF, MutiplyNode.UpdateBSDF.
  by rewrite Hblack.
Qed.

(** C4. For every Multiply node and every weight that is not black, with
    an unbound child counting as Constant (and Constant not carrying the
    BXDF flag): when the first child alone is BXDF-typed it is bound and
    the call is exactly the call of that child with the weight times the
    first component of the second child's resolved value; when the second
    child alone is BXDF-typed, symmetrically; when neither is, the
    accumulator is returned untouched. *)
Theorem MutiplyNode_UpdateBSDF_routes
    (this : MutiplyNode.t Bsdf) (bsdf : Bsdf) (weight : Spectrum) :
  has_flag MAT_NODE_CONSTANT MAT_NODE_BXDF = false ->
  IsBlack weight = false ->
  let bxdf0 := has_flag (referenced_type (MutiplyNode.src0 this)) MAT_NODE_BXDF in
  let bxdf1 := has_flag (referenced_type (MutiplyNode.src1 this)) MAT_NODE_BXDF in
  (bxdf0 = true -> bxdf1 = false ->
     exists n, node (MutiplyNode.src0 this) = Some n
       /\ MutiplyNode.UpdateBSDF this bsdf weight
          = MaterialNode.UpdateBSDF n bsdf
              (weight *: x (GetPropertyValue (MutiplyNode.src1 this) bsdf))%spectrum)
  /\ (bxdf0 = false -> bxdf1 = true ->
     exists n, node (MutiplyNode.src1 this) = Some n
       /\ MutiplyNode.UpdateBSDF this bsdf weight
          = MaterialNode.UpdateBSDF n bsdf
              (weight *: x (GetPropertyValue (MutiplyNode.src0 this) bsdf))%spectrum)
  /\ (bxdf0 = false -> bxdf1 = false ->
     MutiplyNode.UpdateBSDF this bsdf weight = Some bsdf).
Proof.
  intros Hconst Hweight bxdf0 bxdf1. subst bxdf0 bxdf1.
  unfold MutiplyNode.UpdateBSDF. rewrite Hweight.
  split; [|split]; intros H0 H1; rewrite H0; try rewrite H1; try done.
  - unfold referenced_type in H0.
    destruct (node (MutiplyNode.src0 this)) as [n|] eqn:Hn; [|congruence].
    by exists n.
  - unfold referenced_type in H1.
    destruct (node (MutiplyNode.src1 this)) as [n|] eqn:Hn; [|congruence].
    by exists n.
Qed.

(** C5. For every Lerp node, pull evaluation returns [a·(1−f) + b·f]
    component by component, [f] being the first component of the resolved
    value of Factor; and the graph Lerp(ConstantColor(1,0,0),
    ConstantColor(0,1,0), ConstantScalar(0.3)) evaluates to (0.7, 0.3, 0.0)
    in binary32, whatever the components of the constants that the
    scenario leaves open. *)
Theorem LerpNode_GetNodeValue_interpolates :
  (forall (this : LerpNode.t Bsdf) (bsdf : Bsdf),
     let ca := GetPropertyValue (LerpNode.src0 this) bsdf in
     let cb := GetPropertyValue (LerpNode.src1 this) bsdf in
     let f := x (GetPropertyValue (LerpNode.factor this) bsdf) in
     LerpNode.GetNodeValue this bsdf
     = MkValue (x ca * (one - f) + x cb * f) (y ca * (one - f) + y cb * f)
               (z ca * (one - f) + z cb * f) (w ca * (one - f) + w cb * f))
  /\ (forall (bsdf : Bsdf) (w0 w1 fy fz fw : float),
        let root :=
          LerpNode.Mk
            (bound (ConstantNode (MkValue one zero zero w0)))
            (bound (ConstantNode (MkValue zero one zero w1)))
            (bound (ConstantNode (MkValue (lit 3 10) fy fz fw))) in
        let v := LerpNode.GetNodeValue root bsdf in
        (x v, y v, z v) = (lit 7 10, lit 3 10, zero)).
Proof.
  split; [reflexivity|].
  intros bsdf w0 w1 fy fz fw root v. subst v root.
  vm_compute. reflexivity.
Qed.

(** C6. For every Lerp node and every weight that is not black, with [f]
    the first component of the resolved value of Factor (read before any
    child runs): push evaluation calls the first child with
    [weight·(1−f)], then the second child with [weight·f] on the
    accumulator the first call left; a child whose property is bound to no
    node is skipped, without failure. *)
Theorem LerpNode_UpdateBSDF_distributes
    (this : LerpNode.t Bsdf) (bsdf : Bsdf) (weight : Spectrum) :
  IsBlack weight = false ->
  let f := x (GetPropertyValue (LerpNode.factor this) bsdf) in
  LerpNode.UpdateBSDF this bsdf weight
  = match node (LerpNode.src0 this), node (LerpNode.src1 this) with
    | Some n0, Some n1 =>
        bsdf' ← MaterialNode.UpdateBSDF n0 bsdf (weight *: (one - f))%spectrum;
        MaterialNode.UpdateBSDF n1 bsdf' (weight *: f)%spectrum
    | Some n0, None =>
        MaterialNode.UpdateBSDF n0 bsdf (weight *: (one - f))%spectrum
    | None, Some n1 =>
        MaterialNode.UpdateBSDF n1 bsdf (weight *: f)%spectrum
    | None, None => Some bsdf
    end.
Proof.
  intros Hweight f. unfold LerpNode.UpdateBSDF. rewrite Hweight. fold f.
  destruct (node (LerpNode.src0 this)) as [n0|],
           (node (LerpNode.src1 this)) as [n1|]; try done.
  apply bind_Some_r.
Qed.

(** C9. For every input [a] (the resolved value of the Color property),
    NormalDecode returns [(2·a.x − 1, a.z, 2·a.y − 1, 0)]; on the input
    (0.5, 0.5, 1.0), whatever its fourth component, that is
    (0, 1, 0, 0). *)
Theorem NormalDecoderNode_GetNodeValue_decodes :
  (forall (this : NormalDecoderNode.t Bsdf) (bsdf : Bsdf),
     let a := GetPropertyValue (NormalDecoderNode.src this) bsdf in
     NormalDecoderNode.GetNodeValue this bsdf
     = MkValue (two * x a - one) (z a) (two * y a - one) zero)
  /\ (forall (bsdf : Bsdf) (w0 : float),
        NormalDecoderNode.GetNodeValue
          (NormalDecoderNode.Mk (literal (MkValue (lit 1 2) (lit 1 2) one w0)))
          bsdf
        = MkValue zero one zero zero).
Proof.
  split; [reflexivity|].
  intros bsdf w0. vm_compute. reflexivity.
Qed.

(** C10. For every Blend node and every weight that is not black: a child
    whose property is bound to no node is skipped, with no call and no
    failure, and a bound sibling still receives its call with its weight;
    with both children unbound the accumulator comes back untouched. No
    null node is dereferenced: when the calls of the bound children cannot
    fail, the evaluation of the Blend node does not fail, whichever
    children are bound. *)
Theorem BlendNode_UpdateBSDF_skips_unbound
    (this : BlendNode.t Bsdf) (bsdf : Bsdf) (weight : Spectrum) :
  IsBlack weight = false ->
  let f0 := x (GetPropertyValue (BlendNode.factor0 this) bsdf) in
  let f1 := y (GetPropertyValue (BlendNode.factor1 this) bsdf) in
  (node (BlendNode.src0 this) = None -> node (BlendNode.src1 this) = None ->
     BlendNode.UpdateBSDF this bsdf weight = Some bsdf)
  /\ (forall n0, node (BlendNode.src0 this) = Some n0 ->
        node (BlendNode.src1 this) = None ->
        BlendNode.UpdateBSDF this bsdf weight
        = MaterialNode.UpdateBSDF n0 bsdf (weight *: f0)%spectrum)
  /\ (forall n1, node (BlendNode.src0 this) = None ->
        node (BlendNode.src1 this) = Some n1 ->
        BlendNode.UpdateBSDF this bsdf weight
        = MaterialNode.UpdateBSDF n1 bsdf (weight *: f1)%spectrum)
  /\ (forall n0 n1 bsdf0 bsdf1,
        node (BlendNode.src0 this) = Some n0 ->
        node (BlendNode.src1 this) = Some n1 ->
        MaterialNode.UpdateBSDF n0 bsdf (weight *: f0)%spectrum = Some bsdf0 ->
        MaterialNode.UpdateBSDF n1 bsdf0 (weight *: f1)%spectrum = Some bsdf1 ->
        BlendNode.UpdateBSDF this bsdf weight = Some bsdf1)
  /\ ((forall n0, node (BlendNode.src0 this) = Some n0 ->
         forall acc wt, is_Some (MaterialNode.UpdateBSDF n0 acc wt)) ->
      (forall n1, node (BlendNode.src1 this) = Some n1 ->
         forall acc wt, is_Some (MaterialNode.UpdateBSDF n1 acc wt)) ->
      is_Some (BlendNode.UpdateBSDF this bsdf weight)).
Proof.
  intros Hweight f0 f1. unfold BlendNode.UpdateBSDF. rewrite Hweight.
  fold f0 f1. split; [|split; [|split; [|split]]].
  - by intros -> ->.
  - intros n0 -> ->. apply bind_Some_r.
  - by intros n1 -> ->.
  - intros n0 n1 bsdf0 bsdf1 -> -> H0 H1. by rewrite H0.
  - intros Hsafe0 Hsafe1.
    assert (Hfirst : exists bsdf0,
      match node (BlendNode.src0 this) with
      | Some n => MaterialNode.UpdateBSDF n bsdf (weight *: f0)%spectrum
      | None => Some bsdf
      end = Some bsdf0).
    { destruct (node (BlendNode.src0 this)) as [n0|]; [|by exists bsdf].
      destruct (Hsafe0 n0 eq_refl bsdf (weight *: f0)%spectrum) as [bsdf0 H0].
      by exists bsdf0. }
    destruct Hfirst as [bsdf0 ->]. simpl.
    destruct (node (BlendNode.src1 this)) as [n1|]; [|done].
    by apply Hsafe1.
Qed.

(** C7. For every Operator node, whatever its flag was: when one of its
    properties is bound to a node whose type carries the BXDF flag, or to a
    node whose own validation meets such a binding further down (through
    Operator nodes and nodes validated by the base class),
    [CheckValidation] returns false and leaves [m_node_valid] false. A
    property bound to no node counts as Constant and, Constant not carrying
    the BXDF flag, never rejects: with every property unbound or bound to a
    node without the flag the result is the one of the base class, and
    with every property unbound the node is valid. *)
Theorem OperatorNode_CheckValidation_rejects_bxdf (this : MaterialNodeBase.t Bsdf) :
  let props := MaterialNodeBase.m_props this in
  (forall name p n,
     props !! name = Some p -> node p = Some n ->
     has_flag (MaterialNode.getNodeType n) MAT_NODE_BXDF = true \/ leads_to_bxdf n ->
     OperatorNode.CheckValidation this = (MaterialNodeBase.Mk props false, false))
  /\ (has_flag MAT_NODE_CONSTANT MAT_NODE_BXDF = false ->
      (forall name p, props !! name = Some p ->
         node p = None
         \/ exists n, node p = Some n
              /\ has_flag (MaterialNode.getNodeType n) MAT_NODE_BXDF = false) ->
      let base := MaterialNodeBase.CheckValidation this in
      OperatorNode.CheckValidation this = (MaterialNodeBase.Mk props base, base))
  /\ (has_flag MAT_NODE_CONSTANT MAT_NODE_BXDF = false ->
      (forall name p, props !! name = Some p -> node p = None) ->
      OperatorNode.CheckValidation this = (MaterialNodeBase.Mk props true, true)).
Proof.
  intros props. subst props.
  assert (Hclean : has_flag MAT_NODE_CONSTANT MAT_NODE_BXDF = false ->
    (forall name p, MaterialNodeBase.m_props this !! name = Some p ->
       node p = None
       \/ exists n, node p = Some n
            /\ has_flag (MaterialNode.getNodeType n) MAT_NODE_BXDF = false) ->
    OperatorNode.CheckValidation this
    = (MaterialNodeBase.Mk (MaterialNodeBase.m_props this)
         (MaterialNodeBase.CheckValidation this),
       MaterialNodeBase.CheckValidation this)).
  { intros Hconst Hall. unfold OperatorNode.CheckValidation.
    rewrite for_inputs_clean; [done|].
    intros [name p] Hin. apply elem_of_map_to_list in Hin.
    unfold referenced_type. simpl.
    destruct (Hall name p Hin) as [->|(n & -> & Hn)]; done. }
  split; [|split].
  - intros name p n Hlook Hnode [Hflag|Hbelow].
    + by apply (operator_rejects_bxdf this name p n).
    + apply (operator_rejects_invalid_child this name p n); [done..|].
      by apply leads_to_bxdf_invalid.
  - intros Hconst Hall base. by apply Hclean.
  - intros Hconst Hall. rewrite Hclean; [|done|].
    + by rewrite base_CheckValidation_unbound.
    + intros name p Hlook. left. by eapply Hall.
Qed.

(** C8, as amended. OneMinus computes [1 − a] component by component in
    binary32, so OneMinus applied to the output of OneMinus returns
    [1 − (1 − x)] with both subtractions rounded. For every input [x] whose
    four components are binary32 values [m · 2^-24] with [0 ≤ m ≤ 2^24]
    (the values of [0, 1] whose distance to 1 is a binary32 value) the two
    subtractions are exact and the result is [x]. *)
Theorem SORTNodeOneMinus_twice_on_grid
    (inherited : MaterialNode.t Bsdf) (p : MaterialNodeProperty Bsdf) (bsdf : Bsdf) :
  let inner := SORTNodeOneMinus.as_node inherited (SORTNodeOneMinus.Mk p) in
  let outer := SORTNodeOneMinus.Mk (bound inner) in
  let a := GetPropertyValue p bsdf in
  SORTNodeOneMinus.GetNodeValue outer bsdf
  = MkValue (one - (one - x a)) (one - (one - y a))
            (one - (one - z a)) (one - (one - w a))
  /\ (forall m0 m1 m2 m3 : Z,
        0 <= m0 <= 2 ^ 24 -> 0 <= m1 <= 2 ^ 24 ->
        0 <= m2 <= 2 ^ 24 -> 0 <= m3 <= 2 ^ 24 ->
        a = MkValue (dyadic24 m0) (dyadic24 m1) (dyadic24 m2) (dyadic24 m3) ->
        SORTNodeOneMinus.GetNodeValue outer bsdf = a).
Proof.
  intros inner outer a.
  assert (Hformula : SORTNodeOneMinus.GetNodeValue outer bsdf
    = MkValue (one - (one - x a)) (one - (one - y a))
              (one - (one - z a)) (one - (one - w a))) by reflexivity.
  split; [exact Hformula|].
  intros m0 m1 m2 m3 H0 H1 H2 H3 Ha. rewrite Hformula, Ha.
  cbn [x y z w].
  rewrite !sub_one_dyadic24 by lia.
  by replace (2 ^ 24 - (2 ^ 24 - m0)) with m0 by lia;
     replace (2 ^ 24 - (2 ^ 24 - m1)) with m1 by lia;
     replace (2 ^ 24 - (2 ^ 24 - m2)) with m2 by lia;
     replace (2 ^ 24 - (2 ^ 24 - m3)) with m3 by lia.
Qed.
End Claims.


(** ** The claims on concrete graphs *)

#[local] Existing Instance Fixtures.types.

Example tiny_bits : Fixtures.tiny = S754_finite false 8388608 (-53).
Proof. vm_compute. reflexivity. Qed.

(** C1, as stated, fails: with Color1 = Color2 = (1,1,1,1), Factor1 = 1 and
    Factor2 = 0 the node returns [1·1 + 1·0 = 1] in each component, where
    [a·f0 + b·f0] is [2]. *)
Lemma BlendNode_GetNodeValue_not_single_factor :
  BlendNode.GetNodeValue Fixtures.blend_literals tt = value_of_float one
  /\ BlendNode_GetNodeValue_claimed Fixtures.blend_literals tt = value_of_float two
  /\ BlendNode.GetNodeValue Fixtures.blend_literals tt
     <> BlendNode_GetNodeValue_claimed Fixtures.blend_literals tt.
Proof. repeat split; vm_compute; [reflexivity..|discriminate]. Qed.

(** C1, as amended, on a Blend node whose factors differ: with the colours
    (1, 0, 1/2, 1) and (1/2, 1, 1, 0) and the factors 1/2 and 1/4 the node
    returns (5/8, 1/4, 1/2, 1/2), where [a·f0 + b·f0] is
    (3/4, 1/2, 3/4, 1/2); and on a Blend node whose two factors are one
    half, where the two formulas agree. *)
Lemma BlendNode_GetNodeValue_two_factors_witness :
  (BlendNode.GetNodeValue Fixtures.blend_two_factors tt
   = MkValue (lit 5 8) (lit 1 4) Fixtures.half Fixtures.half
   /\ BlendNode_GetNodeValue_claimed Fixtures.blend_two_factors tt
      = MkValue (lit 3 4) Fixtures.half (lit 3 4) Fixtures.half)
  /\ (BlendNode.GetNodeValue Fixtures.blend_same_factors tt
      = BlendNode_GetNodeValue_claimed Fixtures.blend_same_factors tt
      /\ BlendNode.GetNodeValue Fixtures.blend_same_factors tt
         = MkValue one Fixtures.half (lit 3 4) one).
Proof.
  split; split.
  - etransitivity.
    + apply (proj1 (@BlendNode_GetNodeValue_two_factors unit
                      Fixtures.blend_two_factors tt)).
    + vm_compute. reflexivity.
  - vm_compute. reflexivity.
  - apply (proj2 (@BlendNode_GetNodeValue_two_factors unit
                    Fixtures.blend_same_factors tt)).
    reflexivity.
  - etransitivity.
    + apply (proj1 (@BlendNode_GetNodeValue_two_factors unit
                      Fixtures.blend_same_factors tt)).
    + vm_compute. reflexivity.
Defined.

(** C2 on the Blend node whose Factor2 is bound to a red constant
    (1, 0, 0): [UpdateBSDF] reads the second component of Factor2 and hands
    the second child the weight times 0, where the first component, as
    claimed, gives the weight times 1. *)
Theorem BlendNode_UpdateBSDF_reads_second_component :
  let weight := Fixtures.white in
  BlendNode.UpdateBSDF Fixtures.blend_red_factor [] weight
  = Some [("a", weight *: one); ("b", weight *: zero)]%spectrum
  /\ BlendNode_UpdateBSDF_claimed Fixtures.blend_red_factor [] weight
     = Some [("a", weight *: one); ("b", weight *: one)]%spectrum
  /\ BlendNode.UpdateBSDF Fixtures.blend_red_factor [] weight
     <> BlendNode_UpdateBSDF_claimed Fixtures.blend_red_factor [] weight.
Proof. repeat split; vm_compute; [reflexivity..|discriminate]. Qed.

(** C3 on routers whose children record every call: with a black weight
    the accumulator stays empty. *)
Lemma routers_prune_black_weight_witness :
  IsBlack Fixtures.black = true
  /\ LerpNode.UpdateBSDF Fixtures.lerp_lobes [] Fixtures.black = Some []
  /\ BlendNode.UpdateBSDF Fixtures.blend_red_factor [] Fixtures.black = Some []
  /\ MutiplyNode.UpdateBSDF Fixtures.multiply_lobe [] Fixtures.black = Some [].
Proof.
  split; [reflexivity|].
  apply (@routers_prune_black_weight Fixtures.Bsdf Fixtures.types
           Fixtures.lerp_lobes Fixtures.blend_red_factor Fixtures.multiply_lobe
           [] Fixtures.black).
  reflexivity.
Defined.

(** C4 on the product of a lobe and the literal one half: the lobe receives
    half the weight. *)
Lemma MutiplyNode_UpdateBSDF_routes_witness :
  has_flag MAT_NODE_CONSTANT MAT_NODE_BXDF = false
  /\ IsBlack Fixtures.white = false
  /\ exists n, node (MutiplyNode.src0 Fixtures.multiply_lobe) = Some n
       /\ MutiplyNode.UpdateBSDF Fixtures.multiply_lobe [] Fixtures.white
          = MaterialNode.UpdateBSDF n []
              (Fixtures.white
               *: x (GetPropertyValue (MutiplyNode.src1 Fixtures.multiply_lobe) []))%spectrum.
Proof.
  split; [reflexivity|]. split; [reflexivity|].
  apply (proj1 (@MutiplyNode_UpdateBSDF_routes Fixtures.Bsdf Fixtures.types
                  Fixtures.multiply_lobe [] Fixtures.white
                  eq_refl eq_refl));
    reflexivity.
Defined.

Example multiply_lobe_result :
  MutiplyNode.UpdateBSDF Fixtures.multiply_lobe [] Fixtures.white
  = Some [("a", MkSpectrum Fixtures.half Fixtures.half Fixtures.half)].
Proof. vm_compute. reflexivity. Qed.

(** C6 on the Lerp of two lobes with factor one half. *)
Lemma LerpNode_UpdateBSDF_distributes_witness :
  IsBlack Fixtures.white = false
  /\ LerpNode.UpdateBSDF Fixtures.lerp_lobes [] Fixtures.white
     = Some [("a", MkSpectrum Fixtures.half Fixtures.half Fixtures.half);
             ("b", MkSpectrum Fixtures.half Fixtures.half Fixtures.half)].
Proof.
  split; [reflexivity|].
  rewrite (@LerpNode_UpdateBSDF_distributes Fixtures.Bsdf
             Fixtures.lerp_lobes [] Fixtures.white eq_refl).
  vm_compute. reflexivity.
Defined.

(** C10 on the Blend node whose first child is unbound. *)
Lemma BlendNode_UpdateBSDF_skips_unbound_witness :
  IsBlack Fixtures.white = false
  /\ BlendNode.UpdateBSDF Fixtures.blend_one_child [] Fixtures.white
     = Some [("b", MkSpectrum Fixtures.half Fixtures.half Fixtures.half)].
Proof.
  split; [reflexivity|].
  rewrite (proj1 (proj2 (proj2
             (@BlendNode_UpdateBSDF_skips_unbound Fixtures.Bsdf
                Fixtures.blend_one_child [] Fixtures.white eq_refl)))
             (Fixtures.BxdfNode "b") eq_refl eq_refl).
  vm_compute. reflexivity.
Defined.

(** C7 on Add nodes: one with a lobe bound to Color2, one with literals
    only. *)
Lemma OperatorNode_CheckValidation_rejects_bxdf_witness :
  has_flag MAT_NODE_CONSTANT MAT_NODE_BXDF = false
  /\ (OperatorNode.CheckValidation (Fixtures.add_base Fixtures.add_with_lobe)).2 = false
  /\ (OperatorNode.CheckValidation (Fixtures.add_base Fixtures.add_literals)).2 = true.
Proof.
  split; [reflexivity|]. split.
  - rewrite (proj1 (@OperatorNode_CheckValidation_rejects_bxdf Fixtures.Bsdf
                      Fixtures.types (Fixtures.add_base Fixtures.add_with_lobe))
               "Color2" (bound (Fixtures.BxdfNode "a")) (Fixtures.BxdfNode "a")
               eq_refl eq_refl (or_introl eq_refl)).
    reflexivity.
  - rewrite (proj2 (proj2 (@OperatorNode_CheckValidation_rejects_bxdf Fixtures.Bsdf
                      Fixtures.types (Fixtures.add_base Fixtures.add_literals)))
               eq_refl).
    + reflexivity.
    + intros name p. simpl. unfold AddNode.m_props. simpl.
      intros [[_ <-]|[_ [[_ <-]|[_ Hempty]]%lookup_insert_Some]]%lookup_insert_Some;
        [reflexivity..|].
      by rewrite lookup_empty in Hempty.
Defined.

(** C8, as stated, fails: on the input 0.1 in every component the inner
    OneMinus rounds [1 − 0.1f] to the float 0.9f [= 15099494 · 2^-24], and
    the outer one returns [1677722 · 2^-24 = 0.100000024], which is not
    0.1f [= 13421773 · 2^-27 = 0.100000001]. *)
Lemma SORTNodeOneMinus_twice_moves_tenth :
  let v := value_of_float (lit 1 10) in
  SORTNodeOneMinus.GetNodeValue (Fixtures.one_minus_twice (literal v)) []
  = value_of_float (dyadic24 1677722)
  /\ SORTNodeOneMinus.GetNodeValue (Fixtures.one_minus_twice (literal v)) [] <> v.
Proof. split; vm_compute; [reflexivity|discriminate]. Qed.

Example tenth_bits :
  lit 1 10 = S754_finite false 13421773 (-27)
  /\ (one - lit 1 10)%f32 = S754_finite false 15099494 (-24)
  /\ dyadic24 1677722 = S754_finite false 13421776 (-27).
Proof. repeat split; vm_compute; reflexivity. Qed.

(** A small input is lost altogether: [1 − 2^-30] rounds to 1. *)
Example one_minus_twice_tiny :
  SORTNodeOneMinus.GetNodeValue
    (Fixtures.one_minus_twice (literal (value_of_float Fixtures.tiny))) []
  = value_of_float zero.
Proof. vm_compute. reflexivity. Qed.

(** C8, as amended, on the input (0, 1, 0.25, 3·2^-24). *)
Lemma SORTNodeOneMinus_twice_on_grid_witness :
  let v := MkValue (dyadic24 0) (dyadic24 (2 ^ 24)) (dyadic24 (2 ^ 22)) (dyadic24 3) in
  SORTNodeOneMinus.GetNodeValue (Fixtures.one_minus_twice (literal v)) [] = v.
Proof.
  intros v.
  apply (proj2 (@SORTNodeOneMinus_twice_on_grid Fixtures.Bsdf
                  Fixtures.inherited (literal v) [])
           0 (2 ^ 24) (2 ^ 22) 3); [lia..|reflexivity].
Defined.

Example dyadic24_quarter : dyadic24 (2 ^ 22) = lit 1 4.
Proof. vm_compute. reflexivity. Qed.

(** Validation through two Operator nodes: an Add node whose Color1 is bound
    to an Add node that has a lobe bound to Color2. The inner node is
    rejected for its binding, the outer one for its invalid child. *)
Example nested_operator_rejected :
  let inner :=
    OperatorNode.as_node Fixtures.inherited
      (Fixtures.add_base Fixtures.add_with_lobe) in
  let outer :=
    Fixtures.add_base
      (AddNode.Mk (bound inner) (literal (value_of_float one))) in
  leads_to_bxdf inner
  /\ (OperatorNode.CheckValidation outer).2 = false
  /\ MaterialNodeBase.m_node_valid (OperatorNode.CheckValidation outer).1 = false.
Proof.
  intros inner outer.
  assert (Hinner : leads_to_bxdf inner).
  { by apply (operator_binds_bxdf _ _ "Color2" (bound (Fixtures.BxdfNode "a"))
                (Fixtures.BxdfNode "a")). }
  split; [exact Hinner|].
  by rewrite (operator_rejects_invalid_child outer "Color1" (bound inner) inner
                eq_refl eq_refl (leads_to_bxdf_invalid inner Hinner)).
Qed.

(** "Lerp(a=2, b=4, f=0.25) → 2.5" *)
Example lerp_2_4_quarter :
  LerpNode.GetNodeValue
    (LerpNode.Mk (literal (value_of_float two))
       (literal (value_of_float (of_Z 4)))
       (literal (value_of_float (lit 1 4)))) tt
  = value_of_float (lit 5 2).
Proof. vm_compute. reflexivity. Qed.

(** * Further properties of the code *)

(** ** Arithmetic of binary32 *)

Section Arith.

Lemma add_comm (a c : float) : (a + c)%f32 = (c + a)%f32.
Proof.
  unfold add.
  destruct a as [sa|sa| |sa ma ea], c as [sc|sc| |sc mc ec];
    try reflexivity; try (by destruct sa, sc).
  unfold SFadd. rewrite (Z.min_comm ea ec). f_equal. apply Z.add_comm.
Qed.

Lemma mul_comm (a c : float) : (a * c)%f32 = (c * a)%f32.
Proof.
  unfold mul.
  destruct a as [sa|sa| |sa ma ea], c as [sc|sc| |sc mc ec];
    try reflexivity; try (by destruct sa, sc).
  unfold SFmul. by rewrite (xorb_comm sa sc), (Pos.mul_comm ma mc), (Z.add_comm ea ec).
Qed.

Lemma shr_fexp_canonical_mantissa (q : positive) (e : Z) :
  canonical_mantissa 24 128 q e = true ->
  shr_fexp 24 128 (Zpos q) e loc_Exact = (exact_record (Zpos q), e).
Proof.
  intros Hc. apply Z.eqb_eq in Hc. unfold shr_fexp.
  change (Zdigits2 (Zpos q)) with (Zpos (digits2_pos q)).
  rewrite Hc, Z.sub_diag. reflexivity.
Qed.

Lemma shr_fexp_trailing_zeros (q j : positive) (e : Z) :
  canonical_mantissa 24 128 q e = true ->
  shr_fexp 24 128 (Zpos (Pos.iter xO q j)) (e - Zpos j) loc_Exact
  = (exact_record (Zpos q), e).
Proof.
  intros Hc. apply Z.eqb_eq in Hc. unfold shr_fexp.
  change (Zdigits2 (Zpos (Pos.iter xO q j)))
    with (Zpos (digits2_pos (Pos.iter xO q j))).
  rewrite digits2_iter_xO, Pos2Z.inj_add.
  replace (Zpos (digits2_pos q) + Zpos j + (e - Zpos j))
    with (Zpos (digits2_pos q) + e) by lia.
  rewrite Hc. replace (e - (e - Zpos j)) with (Zpos j) by lia.
  unfold shr.
  change (shr_record_of_loc (Zpos (Pos.iter xO q j)) loc_Exact)
    with (exact_record (Zpos (Pos.iter xO q j))).
  rewrite iter_pos_iter, iter_shr_1_exact. f_equal. lia.
Qed.

Lemma binary_round_aux_canonical (sx : bool) (m e : Z) (q : positive) (ez : Z) :
  shr_fexp 24 128 m e loc_Exact = (exact_record (Zpos q), ez) ->
  bounded 24 128 q ez = true ->
  binary_round_aux 24 128 sx m e loc_Exact = S754_finite sx q ez.
Proof.
  intros Hshr [Hc Hez]%andb_prop. unfold binary_round_aux. rewrite Hshr.
  change (round_nearest_even (shr_m (exact_record (Zpos q)))
            (loc_of_shr_record (exact_record (Zpos q)))) with (Zpos q).
  rewrite shr_fexp_canonical_mantissa by done.
  change (shr_m (exact_record (Zpos q))) with (Zpos q). cbv beta iota.
  by rewrite Hez.
Qed.

(** Multiplying a binary32 value by [1.0f] changes nothing. *)
Lemma mul_one_r (a : float) : is_float a = true -> (a * one)%f32 = a.
Proof.
  intros Ha. destruct a as [sa|sa| |sa ma ea]; [by destruct sa|by destruct sa|done|].
  change one with (S754_finite false 8388608 (-23)).
  cbv beta iota delta [mul SFmul prec emax]. rewrite xorb_false_r.
  apply binary_round_aux_canonical; [|exact Ha].
  replace (Zpos (ma * 8388608)) with (Zpos (Pos.iter xO ma 23)).
  - replace (ea + -23) with (ea - 23) by lia.
    apply shr_fexp_trailing_zeros. by apply andb_prop in Ha as [Hc _].
  - rewrite Zpos_iter_xO, Pos2Z.inj_mul. reflexivity.
Qed.

Lemma mul_one_l (a : float) : is_float a = true -> (one * a)%f32 = a.
Proof. intros Ha. rewrite mul_comm. by apply mul_one_r. Qed.

(** A finite value times zero is a zero, of either sign. *)
Lemma mul_zero_r (a : float) (s : bool) :
  is_finite a = true -> exists s', (a * S754_zero s)%f32 = S754_zero s'.
Proof. destruct a as [sa|sa| |sa ma ea]; intros Ha; try done; by eexists. Qed.

(** Adding a zero of either sign to a value that is not a negative zero
    changes nothing. *)
Lemma add_zero_r (a : float) (s : bool) :
  a <> S754_zero true -> (a + S754_zero s)%f32 = a.
Proof. destruct a as [[]|sa| |sa ma ea], s; intros Ha; done. Qed.

Lemma add_zero_l (a : float) (s : bool) :
  a <> S754_zero true -> (S754_zero s + a)%f32 = a.
Proof. intros Ha. rewrite add_comm. by apply add_zero_r. Qed.

End Arith.

(** ** Pull evaluation *)

Section Values.
Context {Bsdf : Type} `{MAT_NODE_TYPE}.

Lemma value_eta (v : MaterialPropertyValue) : MkValue (x v) (y v) (z v) (w v) = v.
Proof. by destruct v. Qed.

Lemma spectrum_eta (s : Spectrum) : MkSpectrum (r s) (g s) (b s) = s.
Proof. by destruct s. Qed.

Lemma value_scale_one (v : MaterialPropertyValue) :
  is_float_value v = true -> (v *: one)%val = v.
Proof.
  intros [[[Hx Hy]%andb_prop Hz]%andb_prop Hw]%andb_prop.
  unfold value_scale. rewrite !mul_one_r by done. apply value_eta.
Qed.

Lemma spectrum_scale_one (s : Spectrum) :
  is_float_spectrum s = true -> (s *: one)%spectrum = s.
Proof.
  intros [[Hr Hg]%andb_prop Hb]%andb_prop.
  unfold spectrum_scale. rewrite !mul_one_r by done. apply spectrum_eta.
Qed.

Lemma spectrum_scale_zero (s : Spectrum) (sf : bool) :
  is_finite_spectrum s = true -> IsBlack (s *: S754_zero sf)%spectrum = true.
Proof.
  intros [[Hr Hg]%andb_prop Hb]%andb_prop.
  destruct s as [[] [] []]; try done; by destruct sf.
Qed.

Lemma LerpNode_prunes_black (inherited : MaterialNode.t Bsdf) (this : LerpNode.t Bsdf) :
  prunes_black (LerpNode.as_node inherited this).
Proof.
  intros acc weight Hblack.
  change (LerpNode.UpdateBSDF this acc weight = Some acc).
  unfold LerpNode.UpdateBSDF. by rewrite Hblack.
Qed.

Lemma BlendNode_prunes_black (inherited : MaterialNode.t Bsdf) (this : BlendNode.t Bsdf) :
  prunes_black (BlendNode.as_node inherited this).
Proof.
  intros acc weight Hblack.
  change (BlendNode.UpdateBSDF this acc weight = Some acc).
  unfold BlendNode.UpdateBSDF. by rewrite Hblack.
Qed.

Lemma MutiplyNode_prunes_black (inherited : MaterialNode.t Bsdf) (this : MutiplyNode.t Bsdf) :
  prunes_black (MutiplyNode.as_node inherited this).
Proof.
  intros acc weight Hblack.
  change (MutiplyNode.UpdateBSDF this acc weight = Some acc).
  unfold MutiplyNode.UpdateBSDF. by rewrite Hblack.
Qed.

(** X1. The Add node does not depend on which input is Color1 and which
    is Color2: with the two properties exchanged it returns the same value
    (binary32 addition commutes, NaNs being one value of the model). *)
Theorem AddNode_GetNodeValue_swap (this : AddNode.t Bsdf) (bsdf : Bsdf) :
  AddNode.GetNodeValue (AddNode.Mk (AddNode.src1 this) (AddNode.src0 this)) bsdf
  = AddNode.GetNodeValue this bsdf.
Proof.
  unfold AddNode.GetNodeValue, value_add. cbn [AddNode.src0 AddNode.src1].
  f_equal; apply add_comm.
Qed.

(** X2. The pull evaluation of the Multiply node does not depend on the
    order of its two inputs. *)
Theorem MutiplyNode_GetNodeValue_swap (this : MutiplyNode.t Bsdf) (bsdf : Bsdf) :
  MutiplyNode.GetNodeValue
    (MutiplyNode.Mk (MutiplyNode.src1 this) (MutiplyNode.src0 this)) bsdf
  = MutiplyNode.GetNodeValue this bsdf.
Proof.
  unfold MutiplyNode.GetNodeValue, value_mul.
  cbn [MutiplyNode.src0 MutiplyNode.src1].
  f_equal; apply mul_comm.
Qed.

(** X3. Multiplying by the literal (1,1,1,1), on either side, returns the
    other input unchanged, bit for bit, whenever its components are
    binary32 values: the product with [1.0f] rounds nothing. *)
Theorem MutiplyNode_GetNodeValue_white (p : MaterialNodeProperty Bsdf) (bsdf : Bsdf) :
  is_float_value (GetPropertyValue p bsdf) = true ->
  MutiplyNode.GetNodeValue (MutiplyNode.Mk p (literal (value_of_float one))) bsdf
  = GetPropertyValue p bsdf
  /\ MutiplyNode.GetNodeValue (MutiplyNode.Mk (literal (value_of_float one)) p) bsdf
     = GetPropertyValue p bsdf.
Proof.
  intros [[[Hx Hy]%andb_prop Hz]%andb_prop Hw]%andb_prop.
  unfold MutiplyNode.GetNodeValue, value_mul.
  cbn [MutiplyNode.src0 MutiplyNode.src1].
  change (GetPropertyValue (literal (value_of_float one)) bsdf) with (value_of_float one).
  cbn [x y z w value_of_float].
  rewrite !mul_one_r, !mul_one_l by done. split; apply value_eta.
Qed.

(** X4. Lerp returns its inputs at the ends: with a factor of zero the
    value of Color1, when its components are binary32 values other than
    [-0] and those of Color2 are finite; with a factor of one the value of
    Color2, symmetrically. (An infinite or NaN component on the other side
    would give NaN, and [-0 + 0] is [+0].) *)
Theorem LerpNode_GetNodeValue_endpoints (this : LerpNode.t Bsdf) (bsdf : Bsdf) :
  let ca := GetPropertyValue (LerpNode.src0 this) bsdf in
  let cb := GetPropertyValue (LerpNode.src1 this) bsdf in
  let f := x (GetPropertyValue (LerpNode.factor this) bsdf) in
  ((exists s, f = S754_zero s) ->
     is_float_value ca = true -> no_negative_zero ca -> is_finite_value cb = true ->
     LerpNode.GetNodeValue this bsdf = ca)
  /\ (f = one ->
     is_finite_value ca = true -> is_float_value cb = true -> no_negative_zero cb ->
     LerpNode.GetNodeValue this bsdf = cb).
Proof.
  intros ca cb f. unfold LerpNode.GetNodeValue. fold ca cb f. split.
  - intros [s ->] Hfa (Ha0 & Ha1 & Ha2 & Ha3)
      [[[Hb0 Hb1]%andb_prop Hb2]%andb_prop Hb3]%andb_prop.
    replace (one - S754_zero s)%f32 with one by (by destruct s).
    rewrite value_scale_one by done.
    unfold value_add, value_scale. cbn [x y z w].
    destruct (mul_zero_r (x cb) s Hb0) as [s0 ->], (mul_zero_r (y cb) s Hb1) as [s1 ->],
      (mul_zero_r (z cb) s Hb2) as [s2 ->], (mul_zero_r (w cb) s Hb3) as [s3 ->].
    rewrite !add_zero_r by done. apply value_eta.
  - intros -> [[[Ha0 Ha1]%andb_prop Ha2]%andb_prop Ha3]%andb_prop
      Hfb (Hb0 & Hb1 & Hb2 & Hb3).
    change (one - one)%f32 with (S754_zero false).
    rewrite (value_scale_one cb) by done.
    unfold value_add, value_scale. cbn [x y z w].
    destruct (mul_zero_r (x ca) false Ha0) as [s0 ->],
      (mul_zero_r (y ca) false Ha1) as [s1 ->],
      (mul_zero_r (z ca) false Ha2) as [s2 ->],
      (mul_zero_r (w ca) false Ha3) as [s3 ->].
    rewrite !add_zero_l by done. apply value_eta.
Qed.
End Values.

(** ** Push evaluation *)

Section Push.
Context {Bsdf : Type} `{MAT_NODE_TYPE}.

(** X5. A hard factor prunes one side of a Lerp: for a finite weight that
    is not black, with factor zero the second child is handed a black
    weight, so that a second child that returns at once on black (as the
    routers do) contributes nothing and the first child receives the weight
    unchanged; with factor one, symmetrically. *)
Theorem LerpNode_UpdateBSDF_hard_factor
    (this : LerpNode.t Bsdf) (bsdf : Bsdf) (weight : Spectrum) :
  IsBlack weight = false ->
  is_float_spectrum weight = true -> is_finite_spectrum weight = true ->
  let f := x (GetPropertyValue (LerpNode.factor this) bsdf) in
  ((exists s, f = S754_zero s) ->
     (forall n1, node (LerpNode.src1 this) = Some n1 -> prunes_black n1) ->
     LerpNode.UpdateBSDF this bsdf weight
     = match node (LerpNode.src0 this) with
       | Some n0 => MaterialNode.UpdateBSDF n0 bsdf weight
       | None => Some bsdf
       end)
  /\ (f = one ->
     (forall n0, node (LerpNode.src0 this) = Some n0 -> prunes_black n0) ->
     LerpNode.UpdateBSDF this bsdf weight
     = match node (LerpNode.src1 this) with
       | Some n1 => MaterialNode.UpdateBSDF n1 bsdf weight
       | None => Some bsdf
       end).
Proof.
  intros Hweight Hfloat Hfinite f. unfold LerpNode.UpdateBSDF. rewrite Hweight.
  fold f. split.
  - intros [s ->] Hprune.
    replace (one - S754_zero s)%f32 with one by (by destruct s).
    rewrite spectrum_scale_one by done.
    pose proof (spectrum_scale_zero weight s Hfinite) as Hblack.
    destruct (node (LerpNode.src1 this)) as [n1|].
    + destruct (node (LerpNode.src0 this)) as [n0|]; simpl.
      * destruct (MaterialNode.UpdateBSDF n0 bsdf weight) as [acc|]; [|done].
        simpl. by apply (Hprune n1).
      * by apply (Hprune n1).
    + apply bind_Some_r.
  - intros -> Hprune.
    change (one - one)%f32 with (S754_zero false).
    rewrite spectrum_scale_one by done.
    pose proof (spectrum_scale_zero weight false Hfinite) as Hblack.
    destruct (node (LerpNode.src0 this)) as [n0|]; [|done].
    by rewrite (Hprune n0 eq_refl bsdf _ Hblack).
Qed.

(** X6. In the push evaluation of Multiply the first child takes
    precedence: when it is BXDF-typed it is the one called, with the weight
    scaled by the first component of the pull value of the second child,
    whatever the type of the second child; a second child that is
    BXDF-typed too is never called. *)
Theorem MutiplyNode_UpdateBSDF_first_child_wins
    (this : MutiplyNode.t Bsdf) (bsdf : Bsdf) (weight : Spectrum) :
  has_flag MAT_NODE_CONSTANT MAT_NODE_BXDF = false ->
  IsBlack weight = false ->
  has_flag (referenced_type (MutiplyNode.src0 this)) MAT_NODE_BXDF = true ->
  exists n0, node (MutiplyNode.src0 this) = Some n0
    /\ MutiplyNode.UpdateBSDF this bsdf weight
       = MaterialNode.UpdateBSDF n0 bsdf
           (weight *: x (GetPropertyValue (MutiplyNode.src1 this) bsdf))%spectrum.
Proof.
  intros Hconst Hweight H0. unfold MutiplyNode.UpdateBSDF.
  rewrite Hweight, H0. unfold referenced_type in H0.
  destruct (node (MutiplyNode.src0 this)) as [n0|]; [|congruence].
  by exists n0.
Qed.

(** X7. Multiply of a BXDF-typed first child by a scalar: by one, the
    child receives the weight unchanged (its components being binary32
    values); by zero, with a finite weight, the child is handed a black
    weight and a child that returns at once on black leaves the accumulator
    untouched. *)
Theorem MutiplyNode_UpdateBSDF_unit_and_zero_scalar
    (this : MutiplyNode.t Bsdf) (n0 : MaterialNode.t Bsdf)
    (bsdf : Bsdf) (weight : Spectrum) :
  IsBlack weight = false ->
  node (MutiplyNode.src0 this) = Some n0 ->
  has_flag (MaterialNode.getNodeType n0) MAT_NODE_BXDF = true ->
  let k := x (GetPropertyValue (MutiplyNode.src1 this) bsdf) in
  (k = one -> is_float_spectrum weight = true ->
     MutiplyNode.UpdateBSDF this bsdf weight = MaterialNode.UpdateBSDF n0 bsdf weight)
  /\ ((exists s, k = S754_zero s) -> is_finite_spectrum weight = true ->
      prunes_black n0 ->
      MutiplyNode.UpdateBSDF this bsdf weight = Some bsdf).
Proof.
  intros Hweight Hn0 Hflag k. unfold MutiplyNode.UpdateBSDF, referenced_type.
  rewrite Hweight, Hn0, Hflag. fold k. simpl. split.
  - intros -> Hfloat. by rewrite spectrum_scale_one.
  - intros [s ->] Hfinite Hprune. apply Hprune. by apply spectrum_scale_zero.
Qed.
End Push.

(** ** Validation *)

Section MoreValidation.
Context {Bsdf : Type} `{MAT_NODE_TYPE}.

Implicit Types inputs : list (string * MaterialNodeProperty Bsdf).

(** The loop with its [break] computes a conjunction. *)
Lemma for_inputs_forallb inputs v :
  OperatorNode.for_inputs inputs v
  = forallb (fun input => negb (bxdf_input input.2)) inputs && v.
Proof.
  induction inputs as [|input inputs IH]; simpl; [done|].
  unfold bxdf_input at 1. destruct (has_flag _ _); simpl; [done|]. apply IH.
Qed.

Lemma forallb_Permutation {A : Type} (f : A -> bool) (l l' : list A) :
  l ≡ₚ l' -> forallb f l = forallb f l'.
Proof.
  induction 1 as [|a l l' _ IH|a c l|l l' l'' _ IH1 _ IH2]; simpl.
  - done.
  - by rewrite IH.
  - by destruct (f a), (f c).
  - congruence.
Qed.

(** X8. The loop of [OperatorNode::CheckValidation] gives the same answer
    in whatever order the properties of [m_props] are visited: the [break]
    only saves work. *)
Theorem for_inputs_Permutation inputs inputs' v :
  inputs ≡ₚ inputs' ->
  OperatorNode.for_inputs inputs v = OperatorNode.for_inputs inputs' v.
Proof.
  intros Hperm. rewrite !for_inputs_forallb.
  by rewrite (forallb_Permutation _ _ _ Hperm).
Qed.

(** X9. [OperatorNode::CheckValidation] returns true exactly when no
    registered property is BXDF-typed (an unbound one counting as Constant)
    and every bound node validates. *)
Theorem OperatorNode_CheckValidation_true_iff (this : MaterialNodeBase.t Bsdf) :
  (OperatorNode.CheckValidation this).2 = true
  <-> forall name p, MaterialNodeBase.m_props this !! name = Some p ->
        bxdf_input p = false /\ bound_valid p = true.
Proof.
  unfold OperatorNode.CheckValidation. cbn [snd].
  rewrite for_inputs_forallb. unfold MaterialNodeBase.CheckValidation.
  rewrite andb_true_iff, !forallb_forall. split.
  - intros [Hflag Hvalid] name p Hlook.
    apply elem_of_map_to_list, list_elem_of_In in Hlook. split.
    + apply negb_true_iff. apply (Hflag (name, p) Hlook).
    + apply (Hvalid (name, p) Hlook).
  - intros Hall. split; intros [name p] Hin;
      apply list_elem_of_In, elem_of_map_to_list in Hin;
      destruct (Hall name p Hin) as [Hflag Hvalid]; simpl.
    + by rewrite Hflag.
    + exact Hvalid.
Qed.

(** X10. With the properties the constructor of [AddNode] registers,
    [OperatorNode::CheckValidation] looks at Color1 and Color2 and nothing
    else: it returns the conjunction of the validations of the two bound
    nodes and of neither being BXDF-typed, whatever the flag was before. *)
Theorem AddNode_CheckValidation_closed_form (this : AddNode.t Bsdf) (flag : bool) :
  let p0 := AddNode.src0 this in
  let p1 := AddNode.src1 this in
  (OperatorNode.CheckValidation
     (MaterialNodeBase.Mk (AddNode.m_props this) flag)).2
  = bound_valid p0 && bound_valid p1
    && negb (bxdf_input p0) && negb (bxdf_input p1).
Proof.
  intros p0 p1. unfold OperatorNode.CheckValidation. cbn [snd].
  rewrite for_inputs_forallb. unfold MaterialNodeBase.CheckValidation.
  cbn [MaterialNodeBase.m_props].
  assert (Hperm : map_to_list (AddNode.m_props this)
                  ≡ₚ [("Color2", p1); ("Color1", p0)]).
  { unfold AddNode.m_props. rewrite map_to_list_insert by done.
    by rewrite map_to_list_insert, map_to_list_empty by done. }
  rewrite (forallb_Permutation _ _ _ Hperm).
  rewrite (forallb_Permutation _ _ _ Hperm). simpl.
  fold (bound_valid p0) (bound_valid p1).
  destruct (bound_valid p0), (bound_valid p1),
    (bxdf_input p0), (bxdf_input p1); done.
Qed.
End MoreValidation.

Section Gamma.
Context {Bsdf : Type}.

(** X11. LinearToGamma applied to the output of GammaToLinear never
    touches the fourth component, and returns the input whenever the two
    transfer functions undo each other on its first three components: the
    nodes add no error of their own. *)
Theorem gamma_nodes_round_trip (GammaToLinear LinearToGamma : float -> float)
    (inherited : MaterialNode.t Bsdf) (p : MaterialNodeProperty Bsdf) (bsdf : Bsdf) :
  let v := GetPropertyValue p bsdf in
  let linear := GammaToLinearNode.as_node GammaToLinear inherited
                  (GammaToLinearNode.Mk p) in
  let back := LinearToGammaNode.GetNodeValue LinearToGamma
                (LinearToGammaNode.Mk (bound linear)) bsdf in
  w back = w v
  /\ (LinearToGamma (GammaToLinear (x v)) = x v ->
      LinearToGamma (GammaToLinear (y v)) = y v ->
      LinearToGamma (GammaToLinear (z v)) = z v ->
      back = v).
Proof.
  intros v linear back. split; [reflexivity|].
  intros Hx Hy Hz.
  assert (Hlinear : GetPropertyValue (bound linear) bsdf
                    = MkValue (GammaToLinear (x v)) (GammaToLinear (y v))
                        (GammaToLinear (z v)) (w v)) by reflexivity.
  unfold back, LinearToGammaNode.GetNodeValue.
  cbn [LinearToGammaNode.src]. rewrite Hlinear. cbn [x y z w].
  rewrite Hx, Hy, Hz. apply value_eta.
Qed.
End Gamma.

(** ** The grid of [0, 1] *)

Section Grid.

Lemma dyadic24_canonical (p : positive) :
  Zpos p < 2 ^ 24 ->
  let d := Zpos (digits2_pos p) in
  bounded 24 128 (Pos.shiftl p (Z.to_N (24 - d))) (d - 48) = true.
Proof.
  intros Hp d. pose proof (digits2_le_24 p Hp) as Hd. fold d in Hd.
  pose proof (Pos2Z.is_pos (digits2_pos p)) as Hd0. fold d in Hd0.
  unfold bounded, canonical_mantissa. rewrite digits2_shiftl, Z2N.id by lia.
  fold d. rewrite fexp32. apply andb_true_intro. split.
  - apply Z.eqb_eq. lia.
  - apply Z.leb_le. lia.
Qed.

(** The values of the grid are binary32 values. *)
Lemma dyadic24_is_float (m : Z) : 0 <= m <= 2 ^ 24 -> is_float (dyadic24 m) = true.
Proof.
  intros Hm.
  destruct (Z.eq_dec m (2 ^ 24)) as [->|Hm1]; [vm_compute; reflexivity|].
  destruct m as [|p|p]; [done| |lia].
  rewrite dyadic24_pos by lia. apply dyadic24_canonical. lia.
Qed.

(** Two values of the grid whose sum stays on it add exactly. *)
Lemma add_dyadic24 (m n : Z) :
  0 <= m -> 0 <= n -> m + n <= 2 ^ 24 ->
  (dyadic24 m + dyadic24 n)%f32 = dyadic24 (m + n).
Proof.
  intros Hm Hn Hsum.
  destruct (Z.eq_dec m 0) as [->|Hm0].
  { change (dyadic24 0) with (S754_zero false). rewrite add_zero_l.
    - done.
    - destruct (Z.eq_dec n (2 ^ 24)) as [->|Hn1]; [by vm_compute|].
      destruct n as [|p|p]; [done| |lia]. by rewrite dyadic24_pos by lia. }
  destruct (Z.eq_dec n 0) as [->|Hn0].
  { change (dyadic24 0) with (S754_zero false). rewrite Z.add_0_r, add_zero_r.
    - done.
    - destruct (Z.eq_dec m (2 ^ 24)) as [->|Hm1]; [by vm_compute|].
      destruct m as [|p|p]; [done| |lia]. by rewrite dyadic24_pos by lia. }
  destruct m as [|p|p]; try lia. destruct n as [|q|q]; try lia.
  assert (Hp : Zpos p < 2 ^ 24) by lia. assert (Hq : Zpos q < 2 ^ 24) by lia.
  pose proof (digits2_le_24 p Hp) as Hdp. pose proof (digits2_le_24 q Hq) as Hdq.
  pose proof (Pos2Z.is_pos (digits2_pos p)) as Hdp0.
  pose proof (Pos2Z.is_pos (digits2_pos q)) as Hdq0.
  rewrite (dyadic24_pos p Hp), (dyadic24_pos q Hq).
  set (dp := Zpos (digits2_pos p)) in *. set (dq := Zpos (digits2_pos q)) in *.
  unfold Float32.add, Float32.prec, Float32.emax.
  cbv beta iota delta [SFadd cond_Zopp].
  set (ez := Z.min (dp - 48) (dq - 48)). cbv zeta.
  rewrite (shl_align_le (Pos.shiftl p _)) by lia.
  rewrite (shl_align_le (Pos.shiftl q _)) by lia.
  cbv beta iota delta [fst].
  set (K := -24 - ez).
  assert (HK : 0 <= K <= 23) by lia.
  replace (Zpos (Pos.shiftl (Pos.shiftl p (Z.to_N (24 - dp))) (Z.to_N (dp - 48 - ez)))
           + Zpos (Pos.shiftl (Pos.shiftl q (Z.to_N (24 - dq))) (Z.to_N (dq - 48 - ez))))
    with (Zpos (Pos.shiftl (p + q) (Z.to_N K))).
  2:{ rewrite !Zpos_shiftl, !Z2N.id by lia. rewrite Pos2Z.inj_add.
      rewrite <- !Z.mul_assoc, <- !Z.pow_add_r by lia.
      replace (24 - dp + (dp - 48 - ez)) with K by lia.
      replace (24 - dq + (dq - 48 - ez)) with K by lia. lia. }
  change (binary_normalize 24 128 (Zpos (Pos.shiftl (p + q) (Z.to_N K))) ez false)
    with (binary_round 24 128 false (Pos.shiftl (p + q) (Z.to_N K)) ez).
  change (Zpos p + Zpos q) with (Zpos (p + q)).
  destruct (Z.eq_dec (Zpos (p + q)) (2 ^ 24)) as [Hfull|Hless].
  - rewrite Hfull. change (dyadic24 (2 ^ 24)) with (S754_finite false 8388608 (-23)).
    replace (Pos.shiftl (p + q) (Z.to_N K)) with (Pos.shiftl 1 (Z.to_N (24 + K))).
    2:{ apply Pos2Z.inj. rewrite !Zpos_shiftl, !Z2N.id, Hfull by lia.
        rewrite Z.pow_add_r by lia. lia. }
    replace ez with (0 - Z.of_N (Z.to_N (24 + K))) by (rewrite Z2N.id; lia).
    rewrite binary_round_shiftl by (simpl; lia). reflexivity.
  - assert (Hpq : Zpos (p + q) < 2 ^ 24) by lia.
    pose proof (digits2_le_24 _ Hpq) as Hd.
    pose proof (Pos2Z.is_pos (digits2_pos (p + q))) as Hd0.
    rewrite (dyadic24_pos _ Hpq).
    replace ez with (-24 - Z.of_N (Z.to_N K)) by (rewrite Z2N.id; lia).
    rewrite binary_round_shiftl by lia. f_equal. lia.
Qed.
End Grid.

Section GridNodes.
Context {Bsdf : Type}.

(** X12. OneMinus is exact on the grid of [0, 1]: on components
    [m · 2^-24] with [0 ≤ m ≤ 2^24] it returns [(2^24 − m) · 2^-24], again
    on the grid. *)
Theorem SORTNodeOneMinus_exact_on_grid (this : SORTNodeOneMinus.t Bsdf)
    (bsdf : Bsdf) (m0 m1 m2 m3 : Z) :
  0 <= m0 <= 2 ^ 24 -> 0 <= m1 <= 2 ^ 24 ->
  0 <= m2 <= 2 ^ 24 -> 0 <= m3 <= 2 ^ 24 ->
  GetPropertyValue (SORTNodeOneMinus.src this) bsdf
  = MkValue (dyadic24 m0) (dyadic24 m1) (dyadic24 m2) (dyadic24 m3) ->
  SORTNodeOneMinus.GetNodeValue this bsdf
  = MkValue (dyadic24 (2 ^ 24 - m0)) (dyadic24 (2 ^ 24 - m1))
            (dyadic24 (2 ^ 24 - m2)) (dyadic24 (2 ^ 24 - m3)).
Proof.
  intros H0 H1 H2 H3 Hv. unfold SORTNodeOneMinus.GetNodeValue. rewrite Hv.
  unfold value_sub, value_of_float. cbn [x y z w].
  by rewrite !sub_one_dyadic24.
Qed.

(** X13. Lerp splits the unit weight without loss: called with the weight
    (1,1,1) and a factor [m · 2^-24] of the grid, it hands its children the
    weights [(2^24 − m) · 2^-24] and [m · 2^-24], whose binary32 sum is
    exactly (1,1,1). *)
Theorem LerpNode_UpdateBSDF_splits_unit_weight
    (this : LerpNode.t Bsdf) (bsdf : Bsdf) (m : Z) :
  0 <= m <= 2 ^ 24 ->
  x (GetPropertyValue (LerpNode.factor this) bsdf) = dyadic24 m ->
  let unit := MkSpectrum one one one in
  let w0 := MkSpectrum (dyadic24 (2 ^ 24 - m)) (dyadic24 (2 ^ 24 - m))
              (dyadic24 (2 ^ 24 - m)) in
  let w1 := MkSpectrum (dyadic24 m) (dyadic24 m) (dyadic24 m) in
  LerpNode.UpdateBSDF this bsdf unit
  = (bsdf' ← match node (LerpNode.src0 this) with
             | Some n => MaterialNode.UpdateBSDF n bsdf w0
             | None => Some bsdf
             end;
     match node (LerpNode.src1 this) with
     | Some n => MaterialNode.UpdateBSDF n bsdf' w1
     | None => Some bsdf'
     end)
  /\ MkSpectrum (r w0 + r w1) (g w0 + g w1) (b w0 + b w1) = unit.
Proof.
  intros Hm Hf unit w0 w1. split.
  - unfold LerpNode.UpdateBSDF. change (IsBlack unit) with false. cbv iota zeta.
    rewrite Hf, sub_one_dyadic24 by done.
    unfold spectrum_scale. cbn [r g b unit].
    rewrite !mul_one_l by (apply dyadic24_is_float; lia). reflexivity.
  - cbn [r g b w0 w1]. rewrite add_dyadic24 by lia.
    by replace (2 ^ 24 - m + m) with (2 ^ 24) by lia.
Qed.
End GridNodes.

(** ** Nodes composed *)

Section Composed.
Context {Bsdf : Type}.

(** X24. Blend with both factors one is Add: on inputs whose components
    are binary32 values, a Blend node whose Factor1 and Factor2 are the
    literal one returns what the Add node returns on the same Color1 and
    Color2. *)
Theorem BlendNode_unit_factors_is_AddNode
    (p0 p1 : MaterialNodeProperty Bsdf) (bsdf : Bsdf) :
  is_float_value (GetPropertyValue p0 bsdf) = true ->
  is_float_value (GetPropertyValue p1 bsdf) = true ->
  BlendNode.GetNodeValue
    (BlendNode.Mk p0 p1 (literal (value_of_float one))
       (literal (value_of_float one))) bsdf
  = AddNode.GetNodeValue (AddNode.Mk p0 p1) bsdf.
Proof.
  intros H0 H1. unfold BlendNode.GetNodeValue, AddNode.GetNodeValue.
  cbn [BlendNode.src0 BlendNode.src1 BlendNode.factor0 BlendNode.factor1
       AddNode.src0 AddNode.src1].
  change (x (GetPropertyValue (literal (value_of_float one)) bsdf)) with one.
  by rewrite !value_scale_one.
Qed.

End Composed.

Lemma BlendNode_unit_factors_is_AddNode_witness :
  BlendNode.GetNodeValue
    (BlendNode.Mk (literal Samples.colour) (literal (value_of_float Fixtures.half))
       (literal (value_of_float one)) (literal (value_of_float one))) tt
  = AddNode.GetNodeValue
      (AddNode.Mk (literal Samples.colour) (literal (value_of_float Fixtures.half))) tt.
Proof.
  apply BlendNode_unit_factors_is_AddNode; reflexivity.
Defined.


(** ** The display queue *)

Section DisplayFacts.
Context {Stream Item : Type} `{CONNECTION_STATUS}.
Variable Process : Item -> Stream -> Stream.

Lemma process_loop_take (cnt : Z) (queue : list Item) (stream : Stream) :
  0 <= cnt ->
  DisplayManager.process_loop Process cnt queue stream
  = Some (drop (Z.to_nat cnt) queue, process_all Process (take (Z.to_nat cnt) queue) stream).
Proof.
  revert cnt stream. induction queue as [|item queue IH]; intros cnt stream Hcnt.
  - cbn [DisplayManager.process_loop]. rewrite drop_nil, take_nil.
    destruct (cnt =? 0); [done|].
    by replace (cnt =? DisplayManager.INT_MIN) with false
      by (symmetry; apply Z.eqb_neq; unfold DisplayManager.INT_MIN; lia).
  - cbn [DisplayManager.process_loop].
    destruct (Z.eqb_spec cnt 0) as [->|Hne]; [done|].
    replace (cnt =? DisplayManager.INT_MIN) with false
      by (symmetry; apply Z.eqb_neq; unfold DisplayManager.INT_MIN; lia).
    rewrite IH by lia.
    replace (Z.to_nat cnt) with (S (Z.to_nat (cnt - 1))) by lia.
    reflexivity.
Qed.

Lemma process_loop_drain (cnt : Z) (queue : list Item) (stream : Stream) :
  cnt < 0 -> Z.of_nat (length queue) < cnt + 2 ^ 31 ->
  DisplayManager.process_loop Process cnt queue stream
  = Some ([], process_all Process queue stream).
Proof.
  revert cnt stream. induction queue as [|item queue IH]; intros cnt stream Hcnt Hlen;
    cbn [DisplayManager.process_loop];
    replace (cnt =? 0) with false by (symmetry; apply Z.eqb_neq; lia);
    (replace (cnt =? DisplayManager.INT_MIN) with false
      by (symmetry; apply Z.eqb_neq; unfold DisplayManager.INT_MIN; simpl in Hlen; lia)).
  - done.
  - rewrite IH; [done|lia|]. simpl in Hlen. lia.
Qed.

Lemma QueueDisplayItem_all (this : DisplayManager.t Stream Item) (items : list Item) :
  let queued := foldl DisplayManager.QueueDisplayItem this items in
  DisplayManager.m_status queued = DisplayManager.m_status this
  /\ DisplayManager.m_queue queued = DisplayManager.m_queue this ++ items
  /\ DisplayManager.m_stream queued = DisplayManager.m_stream this.
Proof.
  revert this. induction items as [|item items IH]; intros this; simpl.
  - by rewrite app_nil_r.
  - destruct (IH (DisplayManager.QueueDisplayItem this item)) as (-> & -> & ->).
    simpl. by rewrite <- app_assoc.
Qed.

(** X14. The display queue is first in, first out, and a call processes at
    most [cnt] items: on a connected manager, after any items were queued,
    [ProcessDisplayQueue( cnt )] with [cnt ≥ 0] processes the [cnt] oldest
    items (all of them when there are fewer) in the order they were queued,
    and leaves the others queued in order. *)
Theorem ProcessDisplayQueue_first_in_first_out
    (this : DisplayManager.t Stream Item) (items : list Item) (cnt : Z) :
  DisplayManager.m_status this = CONNECTION_SUCCEED ->
  0 <= cnt ->
  let queued := foldl DisplayManager.QueueDisplayItem this items in
  let pending := DisplayManager.m_queue this ++ items in
  let n := Z.to_nat cnt in
  DisplayManager.ProcessDisplayQueue Process queued cnt
  = Some (DisplayManager.Mk CONNECTION_SUCCEED
            (drop n pending)
            (process_all Process (take n pending) (DisplayManager.m_stream this))).
Proof.
  intros Hstatus Hcnt queued pending n.
  destruct (QueueDisplayItem_all this items) as (Hs & Hq & Hstream).
  fold queued in Hs, Hq, Hstream.
  unfold DisplayManager.ProcessDisplayQueue.
  rewrite Hs, Hq, Hstream, Hstatus, Z.eqb_refl. cbn [negb].
  by rewrite process_loop_take.
Qed.

(** X15. A negative count drains the queue: [while( cnt-- != 0 )] never
    meets zero, so on a connected manager every queued item is processed,
    in order (the queue being shorter than the distance from [cnt] to
    [INT_MIN], where the decrement would overflow). *)
Theorem ProcessDisplayQueue_negative_count_drains
    (this : DisplayManager.t Stream Item) (cnt : Z) :
  DisplayManager.m_status this = CONNECTION_SUCCEED ->
  cnt < 0 ->
  Z.of_nat (length (DisplayManager.m_queue this)) < cnt + 2 ^ 31 ->
  DisplayManager.ProcessDisplayQueue Process this cnt
  = Some (DisplayManager.Mk CONNECTION_SUCCEED []
            (process_all Process (DisplayManager.m_queue this)
               (DisplayManager.m_stream this))).
Proof.
  intros Hstatus Hcnt Hlen. unfold DisplayManager.ProcessDisplayQueue.
  rewrite Hstatus, Z.eqb_refl. cbn [negb].
  by rewrite process_loop_drain.
Qed.

(** X16. While the connection has not succeeded nothing is sent and nothing
    is dropped: whatever was queued stays queued, in order, and the stream
    is untouched, whatever the count. *)
Theorem ProcessDisplayQueue_not_connected
    (this : DisplayManager.t Stream Item) (items : list Item) (cnt : Z) :
  DisplayManager.m_status this <> CONNECTION_SUCCEED ->
  let queued := foldl DisplayManager.QueueDisplayItem this items in
  DisplayManager.ProcessDisplayQueue Process queued cnt = Some queued
  /\ DisplayManager.m_queue queued = DisplayManager.m_queue this ++ items
  /\ DisplayManager.m_stream queued = DisplayManager.m_stream this.
Proof.
  intros Hstatus queued.
  destruct (QueueDisplayItem_all this items) as (Hs & Hqueue & Hstream).
  fold queued in Hs, Hqueue, Hstream. split; [|done].
  unfold DisplayManager.ProcessDisplayQueue. rewrite Hs.
  by replace (DisplayManager.m_status this =? CONNECTION_SUCCEED) with false
    by (symmetry; by apply Z.eqb_neq).
Qed.
End DisplayFacts.

#[local] Existing Instance Fixtures.types.

(** ** The properties above on concrete inputs *)

Lemma MutiplyNode_GetNodeValue_white_witness :
  is_float_value Samples.colour = true
  /\ MutiplyNode.GetNodeValue
       (MutiplyNode.Mk (literal Samples.colour) (literal (value_of_float one))) tt
     = Samples.colour.
Proof.
  split; [reflexivity|].
  apply (proj1 (MutiplyNode_GetNodeValue_white (literal Samples.colour) tt eq_refl)).
Defined.

Lemma LerpNode_GetNodeValue_endpoints_witness :
  LerpNode.GetNodeValue
    (LerpNode.Mk (literal Samples.colour) (literal (value_of_float one))
       (literal (value_of_float zero))) tt
  = Samples.colour.
Proof.
  apply (proj1 (LerpNode_GetNodeValue_endpoints
                  (LerpNode.Mk (literal Samples.colour)
                     (literal (value_of_float one))
                     (literal (value_of_float zero))) tt)).
  - by exists false.
  - reflexivity.
  - repeat split; discriminate.
  - reflexivity.
Defined.

Lemma LerpNode_UpdateBSDF_hard_factor_witness :
  IsBlack Fixtures.white = false
  /\ LerpNode.UpdateBSDF Samples.lerp_hard [] Fixtures.white
     = Some [("a"%string, Fixtures.white)].
Proof.
  split; [reflexivity|].
  rewrite (proj1 (LerpNode_UpdateBSDF_hard_factor Samples.lerp_hard []
                    Fixtures.white eq_refl eq_refl eq_refl)).
  - reflexivity.
  - by exists false.
  - intros n1 [= <-]. apply LerpNode_prunes_black.
Defined.

Lemma MutiplyNode_UpdateBSDF_first_child_wins_witness :
  exists n0, node (MutiplyNode.src0 Samples.multiply_lobes) = Some n0
    /\ MutiplyNode.UpdateBSDF Samples.multiply_lobes [] Fixtures.white
       = MaterialNode.UpdateBSDF n0 []
           (Fixtures.white
            *: x (GetPropertyValue (MutiplyNode.src1 Samples.multiply_lobes) []))%spectrum.
Proof.
  exact (@MutiplyNode_UpdateBSDF_first_child_wins Fixtures.Bsdf Fixtures.types
           Samples.multiply_lobes []
           Fixtures.white eq_refl eq_refl eq_refl).
Defined.

(** The second lobe is not called; the first is handed the weight times
    the pull value of the second, which is zero. *)
Example multiply_lobes_result :
  MutiplyNode.UpdateBSDF Samples.multiply_lobes [] Fixtures.white
  = Some [("a"%string, Fixtures.black)].
Proof. vm_compute. reflexivity. Qed.

Lemma MutiplyNode_UpdateBSDF_unit_and_zero_scalar_witness :
  MutiplyNode.UpdateBSDF Samples.multiply_by_one [] Fixtures.white
  = Some [("a"%string, Fixtures.white)].
Proof.
  rewrite (proj1 (@MutiplyNode_UpdateBSDF_unit_and_zero_scalar
                    Fixtures.Bsdf Fixtures.types
                    Samples.multiply_by_one (Fixtures.BxdfNode "a") []
                    Fixtures.white eq_refl eq_refl eq_refl) eq_refl eq_refl).
  reflexivity.
Defined.

Lemma for_inputs_Permutation_witness :
  let lobe := ("Color1"%string, bound (Fixtures.BxdfNode "a")) in
  let plain := ("Color2"%string, literal (Bsdf := Fixtures.Bsdf) (value_of_float one)) in
  OperatorNode.for_inputs [lobe; plain] true
  = OperatorNode.for_inputs [plain; lobe] true.
Proof.
  intros lobe plain. apply for_inputs_Permutation. apply perm_swap.
Defined.

Lemma gamma_nodes_round_trip_witness :
  let double := fun c : float => (c * two)%f32 in
  let halve := fun c : float => (c * Fixtures.half)%f32 in
  LinearToGammaNode.GetNodeValue halve
    (LinearToGammaNode.Mk
       (bound (GammaToLinearNode.as_node double Fixtures.inherited
                 (GammaToLinearNode.Mk (literal Samples.colour))))) []
  = Samples.colour.
Proof.
  intros double halve.
  apply (proj2 (gamma_nodes_round_trip double halve Fixtures.inherited
                  (literal Samples.colour) [])); reflexivity.
Defined.

Lemma SORTNodeOneMinus_exact_on_grid_witness :
  SORTNodeOneMinus.GetNodeValue
    (SORTNodeOneMinus.Mk
       (literal (MkValue (dyadic24 0) (dyadic24 (2 ^ 24)) (dyadic24 (2 ^ 22))
                   (dyadic24 3)))) tt
  = MkValue (dyadic24 (2 ^ 24 - 0)) (dyadic24 (2 ^ 24 - 2 ^ 24))
            (dyadic24 (2 ^ 24 - 2 ^ 22)) (dyadic24 (2 ^ 24 - 3)).
Proof.
  apply SORTNodeOneMinus_exact_on_grid; [lia..|reflexivity].
Defined.

Lemma LerpNode_UpdateBSDF_splits_unit_weight_witness :
  let lerp := LerpNode.Mk (bound (Fixtures.BxdfNode "a"))
                (bound (Fixtures.BxdfNode "b"))
                (literal (value_of_float (lit 1 4))) in
  LerpNode.UpdateBSDF lerp [] Fixtures.white
  = Some [("a"%string, MkSpectrum (lit 3 4) (lit 3 4) (lit 3 4));
          ("b"%string, MkSpectrum (lit 1 4) (lit 1 4) (lit 1 4))]
  /\ MkSpectrum (lit 3 4 + lit 1 4) (lit 3 4 + lit 1 4) (lit 3 4 + lit 1 4)
     = Fixtures.white.
Proof.
  intros lerp.
  pose proof (LerpNode_UpdateBSDF_splits_unit_weight lerp [] (2 ^ 22)
                ltac:(lia) eq_refl) as [Hcalls Hsum].
  split.
  - etransitivity; [exact Hcalls|]. vm_compute. reflexivity.
  - etransitivity; [|exact Hsum]. vm_compute. reflexivity.
Defined.

#[local] Existing Instance Samples.status.

Lemma ProcessDisplayQueue_first_in_first_out_witness :
  let manager := DisplayManager.Mk CONNECTION_SUCCEED ["a"%string] [] in
  let queued := foldl DisplayManager.QueueDisplayItem manager ["b"; "c"]%string in
  DisplayManager.ProcessDisplayQueue Samples.Process queued 2
  = Some (DisplayManager.Mk CONNECTION_SUCCEED ["c"%string] ["a"; "b"]%string).
Proof.
  intros manager queued.
  apply (ProcessDisplayQueue_first_in_first_out Samples.Process manager
           ["b"; "c"]%string 2 eq_refl).
  lia.
Defined.

Lemma ProcessDisplayQueue_negative_count_drains_witness :
  DisplayManager.ProcessDisplayQueue Samples.Process
    (DisplayManager.Mk CONNECTION_SUCCEED ["a"; "b"; "c"]%string []) (-1)
  = Some (DisplayManager.Mk CONNECTION_SUCCEED [] ["a"; "b"; "c"]%string).
Proof.
  apply (ProcessDisplayQueue_negative_count_drains Samples.Process
           (DisplayManager.Mk CONNECTION_SUCCEED ["a"; "b"; "c"]%string [])
           (-1) eq_refl); simpl; lia.
Defined.

Lemma ProcessDisplayQueue_not_connected_witness :
  let manager := DisplayManager.Mk CONNECTION_FAILED ["a"%string] ([] : Samples.Stream) in
  let queued := foldl DisplayManager.QueueDisplayItem manager ["b"%string] in
  DisplayManager.ProcessDisplayQueue Samples.Process queued 4 = Some queued
  /\ DisplayManager.m_queue queued = ["a"; "b"]%string
  /\ DisplayManager.m_stream queued = [].
Proof.
  intros manager queued.
  apply (ProcessDisplayQueue_not_connected Samples.Process manager ["b"%string] 4).
  discriminate.
Defined.

(** ** Tokens *)

Import strhelper.

Section NextTokenFacts.


Lemma find_first_of_lt (str : string) (t : ascii) (p : nat) :
  find_first_of str t = Some p -> (p < String.length str)%nat.
Proof.
  revert p. induction str as [|c str IH]; intros p; simpl; [done|].
  destruct (Ascii.eqb c t).
  - intros [= <-]. lia.
  - destruct (find_first_of str t) as [q|]; simpl; [|done].
    intros [= <-]. specialize (IH q eq_refl). lia.
Qed.

Lemma find_first_of_app (tok rest : string) (t : ascii) :
  find_first_of tok t = None ->
  find_first_of (tok +++ String t rest) t = Some (String.length tok).
Proof.
  induction tok as [|c tok IH]; simpl.
  - by rewrite Ascii.eqb_refl.
  - destruct (Ascii.eqb c t); [done|].
    destruct (find_first_of tok t); [done|]. intros _. by rewrite IH.
Qed.

Lemma length_drop (n : nat) (str : string) :
  String.length (drop n str) = (String.length str - n)%nat.
Proof.
  revert str. induction n as [|n IH]; intros [|c str]; simpl; try lia. apply IH.
Qed.

Lemma length_take (n : nat) (str : string) :
  String.length (take n str) = Nat.min n (String.length str).
Proof.
  revert str. induction n as [|n IH]; intros [|c str]; simpl; try lia.
  by rewrite IH.
Qed.

Lemma take_all (n : nat) (str : string) :
  (String.length str <= n)%nat -> take n str = str.
Proof.
  revert str. induction n as [|n IH]; intros [|c str]; simpl; try done; try lia.
  intros Hn. rewrite IH; [done|lia].
Qed.

Lemma take_app (tok rest : string) : take (String.length tok) (tok +++ rest) = tok.
Proof. induction tok as [|c tok IH]; simpl; [by destruct rest|by rewrite IH]. Qed.

Lemma drop_app (tok rest : string) : drop (String.length tok) (tok +++ rest) = rest.
Proof. induction tok as [|c tok IH]; simpl; [done|exact IH]. Qed.

Lemma length_app (a c : string) :
  String.length (a +++ c) = (String.length a + String.length c)%nat.
Proof. induction a as [|x a IH]; simpl; [done|by rewrite IH]. Qed.

Lemma length_skip (str : string) (t : ascii) :
  (String.length (skip_while_first str t) <= String.length str)%nat.
Proof.
  induction str as [|c str IH]; [done|].
  cbn [skip_while_first]. destruct (_ =? 0); simpl in *; lia.
Qed.

Lemma substr_prefix (str : string) (n : Z) :
  substr str 0 (Some n) = Some (take (Z.to_nat (Z.min n (size str))) str).
Proof.
  unfold substr. replace (size str <? 0) with false
    by (symmetry; apply Z.ltb_ge; unfold size; lia).
  by rewrite Z.sub_0_r.
Qed.

Lemma substr_suffix (str : string) (pos : Z) :
  0 <= pos <= size str ->
  substr str pos None = Some (drop (Z.to_nat pos) str).
Proof.
  intros Hpos. unfold substr.
  replace (size str <? pos) with false by (symmetry; apply Z.ltb_ge; lia).
  rewrite take_all; [done|]. rewrite length_drop. unfold size. lia.
Qed.

Lemma to_unsigned_range (found : option nat) : 0 <= to_unsigned found < 2 ^ 32.
Proof.
  destruct found as [p|]; simpl.
  - apply Z.mod_pos_bound. lia.
  - unfold unsigned_npos. lia.
Qed.

(** X17. [NextToken] never throws, whatever the string (the positions it
    hands to [substr] are within the string even when the 32-bit index
    wraps), the token and what is left are together no longer than the
    string, and on a string that is not empty what is left is shorter: a
    loop that reads token after token ends. *)
Theorem NextToken_shrinks (str : string) (t : ascii) :
  exists res rest,
    NextToken str t = Some (res, rest)
    /\ (String.length res + String.length rest <= String.length str)%nat
    /\ (str <> EmptyString -> (String.length rest < String.length str)%nat).
Proof.
  unfold NextToken.
  pose proof (length_skip str t) as Hskip.
  set (s := skip_while_first str t) in *.
  assert (Hnonempty : str <> EmptyString -> (0 < String.length str)%nat).
  { destruct str; [done|simpl; lia]. }
  rewrite substr_prefix. cbn [mbind option_bind].
  set (id := to_unsigned (find_first_of s t)).
  pose proof (to_unsigned_range (find_first_of s t)) as Hid. fold id in Hid.
  destruct (id =? unsigned_npos) eqn:Hnpos.
  - eexists _, _. split; [reflexivity|]. rewrite length_take. simpl. split; [lia|].
    intros Hne. specialize (Hnonempty Hne). lia.
  - apply Z.eqb_neq in Hnpos. unfold unsigned_npos in Hnpos.
    rewrite Z.mod_small by lia.
    destruct (find_first_of s t) as [p|] eqn:Hfind; [|done].
    apply find_first_of_lt in Hfind.
    assert (Hle : id <= Z.of_nat p).
    { unfold id. simpl. apply Z.mod_le; lia. }
    rewrite substr_suffix by (unfold size; lia).
    cbn [mbind option_bind].
    eexists _, _. split; [reflexivity|].
    rewrite !length_take, !length_drop. unfold size. split; [lia|]. intros _. lia.
Qed.

Lemma skip_fill (k : nat) (s : string) (t : ascii) :
  short (fill k t +++ s) ->
  skip_while_first (fill k t +++ s) t = skip_while_first s t.
Proof.
  induction k as [|k IH]; [done|]. intros Hshort.
  assert (Hfind : find_first_of (String t (fill k t +++ s)) t = Some 0%nat).
  { simpl. by rewrite Ascii.eqb_refl. }
  change (fill (S k) t +++ s) with (String t (fill k t +++ s)).
  change (skip_while_first (String t (fill k t +++ s)) t)
    with (if to_unsigned (find_first_of (String t (fill k t +++ s)) t) =? 0
          then skip_while_first (fill k t +++ s) t
          else String t (fill k t +++ s)).
  rewrite Hfind. change (to_unsigned (Some 0%nat) =? 0) with true.
  cbv iota. apply IH. unfold short, size in *. simpl in Hshort. lia.
Qed.

Lemma skip_token (tok s : string) (t : ascii) :
  tok <> EmptyString -> find_first_of tok t = None -> short (tok +++ s) ->
  skip_while_first (tok +++ s) t = tok +++ s.
Proof.
  destruct tok as [|c tok]; [done|]. intros _ Hfind Hshort.
  change (String c tok +++ s) with (String c (tok +++ s)) in *.
  change (skip_while_first (String c (tok +++ s)) t)
    with (if to_unsigned (find_first_of (String c (tok +++ s)) t) =? 0
          then skip_while_first (tok +++ s) t
          else String c (tok +++ s)).
  destruct (find_first_of (String c (tok +++ s)) t) as [p|] eqn:Hp; [|reflexivity].
  pose proof (find_first_of_lt _ _ _ Hp) as Hlt.
  assert (Hp0 : p <> 0%nat).
  { simpl in Hp, Hfind. destruct (Ascii.eqb c t); [done|].
    destruct (find_first_of (tok +++ s) t); simpl in Hp; [|done].
    injection Hp as <-. lia. }
  cbn [to_unsigned]. unfold short, size in Hshort.
  rewrite Z.mod_small by lia.
  by replace (Z.of_nat p =? 0) with false by (symmetry; apply Z.eqb_neq; lia).
Qed.

(** A token followed by a delimiter: the token comes back, whatever
    delimiters precede it, and what follows the delimiter is left. *)
Lemma NextToken_delimited (k : nat) (tok rest : string) (t : ascii) :
  tok <> EmptyString -> find_first_of tok t = None ->
  short (fill k t +++ tok +++ String t rest) ->
  NextToken (fill k t +++ tok +++ String t rest) t = Some (tok, rest).
Proof.
  intros Htok Hfind Hshort. unfold NextToken.
  assert (Hshort' : short (tok +++ String t rest)).
  { unfold short, size in *. rewrite length_app in Hshort. lia. }
  rewrite skip_fill, skip_token by done.
  rewrite find_first_of_app by done. cbn [to_unsigned].
  unfold short, size in Hshort'. rewrite length_app in Hshort'.
  simpl String.length in Hshort'.
  rewrite Z.mod_small by lia.
  rewrite substr_prefix. cbn [mbind option_bind].
  replace (Z.to_nat (Z.min _ _)) with (String.length tok)
    by (unfold size; rewrite length_app; simpl String.length; lia).
  rewrite take_app.
  replace (Z.of_nat (String.length tok) =? unsigned_npos) with false
    by (symmetry; apply Z.eqb_neq; unfold unsigned_npos; lia).
  rewrite Z.mod_small by lia.
  rewrite substr_suffix
    by (unfold size; rewrite length_app; simpl String.length; lia).
  cbn [mbind option_bind].
  replace (Z.to_nat (Z.of_nat (String.length tok) + 1))
    with (String.length (tok +++ String t EmptyString))
    by (rewrite length_app; simpl; lia).
  replace (tok +++ String t rest) with ((tok +++ String t EmptyString) +++ rest).
  - by rewrite drop_app.
  - clear. induction tok as [|c tok IH]; [done|].
    change (String c ((tok +++ String t EmptyString) +++ rest)
            = String c (tok +++ String t rest)).
    by f_equal.
Qed.

(** The last token: with no delimiter after it, the token comes back and
    nothing is left. A string of delimiters only gives the empty token. *)
Lemma NextToken_last (k : nat) (tok : string) (t : ascii) :
  find_first_of tok t = None ->
  short (fill k t +++ tok) ->
  NextToken (fill k t +++ tok) t = Some (tok, EmptyString).
Proof.
  intros Hfind Hshort. unfold NextToken.
  assert (Hshort' : short (tok +++ EmptyString)).
  { unfold short, size in *. rewrite !length_app in *. simpl. lia. }
  assert (Hskip : skip_while_first (fill k t +++ tok) t = tok).
  { rewrite skip_fill by done. destruct tok as [|c tok]; [done|].
    assert (Happ : forall a, a +++ EmptyString = a).
    { induction a as [|x a IH]; [done|].
      change (String x (a +++ EmptyString) = String x a). by f_equal. }
    rewrite <- (Happ (String c tok)) at 1.
    rewrite skip_token; [apply Happ|done|done|done]. }
  rewrite Hskip, Hfind. cbn [to_unsigned].
  unfold short, size in Hshort'. rewrite length_app in Hshort'. simpl in Hshort'.
  rewrite substr_prefix. cbn [mbind option_bind].
  rewrite Z.eqb_refl. rewrite take_all; [done|]. unfold unsigned_npos, size. lia.
Qed.

(** X18. On a string short enough for its indices to fit 32 bits,
    [NextToken] skips the delimiters in front and returns the characters up
    to the next delimiter: that delimiter is consumed and what follows it
    is left; with no delimiter after the token, or with delimiters only,
    nothing is left. *)
Theorem NextToken_tokens (k : nat) (tok rest : string) (t : ascii) :
  find_first_of tok t = None ->
  (tok <> EmptyString ->
   short (fill k t +++ tok +++ String t rest) ->
   NextToken (fill k t +++ tok +++ String t rest) t = Some (tok, rest))
  /\ (short (fill k t +++ tok) ->
      NextToken (fill k t +++ tok) t = Some (tok, EmptyString))
  /\ (short (fill k t) ->
      NextToken (fill k t) t = Some (EmptyString, EmptyString)).
Proof.
  intros Hfind. split; [|split].
  - intros Htok Hshort. by apply NextToken_delimited.
  - intros Hshort. by apply NextToken_last.
  - intros Hshort.
    assert (Happ : fill k t +++ EmptyString = fill k t).
    { clear. induction k as [|k IH]; [done|].
      change (String t (fill k t +++ EmptyString) = String t (fill k t)).
      by f_equal. }
    rewrite <- Happ in *. by apply NextToken_last.
Qed.
End NextTokenFacts.

Import strparse.

Section ParserFacts.
Variable atof : string -> float.
Variable atoi : string -> Z.
Variable Spectrum_default : Spectrum.

Lemma short_app_r (a c : string) : short (a +++ c) -> short c.
Proof. unfold short, size. rewrite length_app. lia. Qed.

Lemma short_tail (c : ascii) (str : string) : short (String c str) -> short str.
Proof. unfold short, size. simpl. lia. Qed.

Lemma empty_app_token (k : nat) (tok rest : string) :
  tok <> EmptyString -> empty (fill k space +++ tok +++ rest) = false.
Proof. by destruct k, tok. Qed.

Lemma NextToken_empty (t : ascii) : NextToken EmptyString t = Some (EmptyString, EmptyString).
Proof. reflexivity. Qed.

(** Three numbers separated by spaces, with any spaces in front of each,
    are read in order, and what follows the third after a space is
    ignored. *)
Lemma SpectrumFromStr_spaced (k1 k2 k3 : nat) (r g b tail : string) :
  let s := fill k1 space +++ r +++ String space
             (fill k2 space +++ g +++ String space
                (fill k3 space +++ b +++ tail)) in
  r <> EmptyString -> g <> EmptyString -> b <> EmptyString ->
  find_first_of r space = None -> find_first_of g space = None ->
  find_first_of b space = None ->
  tail = EmptyString \/ (exists more, tail = String space more) ->
  short s ->
  SpectrumFromStr atof Spectrum_default s
  = Some (MkSpectrum (atof r) (atof g) (atof b)).
Proof.
  intros s Hr Hg Hb Fr Fg Fb Htail Hshort. subst s.
  unfold SpectrumFromStr. rewrite empty_app_token by done.
  pose proof (short_tail _ _ (short_app_r _ _ (short_app_r _ _ Hshort))) as Hshort1.
  pose proof (short_tail _ _ (short_app_r _ _ (short_app_r _ _ Hshort1))) as Hshort2.
  rewrite NextToken_delimited by done. cbn [mbind option_bind].
  rewrite NextToken_delimited by done. cbn [mbind option_bind].
  destruct Htail as [->|[more ->]].
  - assert (Happ : b +++ EmptyString = b).
    { clear. induction b as [|c b IH]; [done|].
      change (String c (b +++ EmptyString) = String c b). by f_equal. }
    rewrite Happ in *. by rewrite NextToken_last.
  - by rewrite NextToken_delimited.
Qed.

Lemma app_empty_r (a : string) : a +++ EmptyString = a.
Proof.
  induction a as [|c a IH]; [done|].
  change (String c (a +++ EmptyString) = String c a). by f_equal.
Qed.

Lemma NextToken_word (tok : string) :
  find_first_of tok space = None -> short tok ->
  NextToken tok space = Some (tok, EmptyString).
Proof. intros Hfind Hshort. by apply (NextToken_last 0). Qed.

Lemma NextToken_word_then (tok rest : string) :
  tok <> EmptyString -> find_first_of tok space = None ->
  short (tok +++ String space rest) ->
  NextToken (tok +++ String space rest) space = Some (tok, rest).
Proof. intros Htok Hfind Hshort. by apply (NextToken_delimited 0). Qed.

(** X19. A constant texture set from a string of three numbers returns
    that colour at every pixel and for every intersection: the numbers are
    read in order, whatever spaces separate them, and what follows the
    third is ignored. *)
Theorem ConstantTexture_SetValue_GetColor (k1 k2 k3 : nat) (r g b tail : string)
    (target : ConstantTexture.t) :
  let s := fill k1 space +++ r +++ String space
             (fill k2 space +++ g +++ String space
                (fill k3 space +++ b +++ tail)) in
  let color := MkSpectrum (atof r) (atof g) (atof b) in
  r <> EmptyString -> g <> EmptyString -> b <> EmptyString ->
  find_first_of r space = None -> find_first_of g space = None ->
  find_first_of b space = None ->
  tail = EmptyString \/ (exists more, tail = String space more) ->
  short s ->
  SpectrumFromStr atof Spectrum_default s = Some color
  /\ exists texture,
       ConstantTexture.SetValue atof Spectrum_default target s = Some texture
       /\ (forall px py, ConstantTexture.GetColor texture px py = color)
       /\ (forall (Intersection : Type) (intersect : Intersection),
             ConstantTexture.Evaluate texture intersect = color).
Proof.
  intros s color Hr Hg Hb Fr Fg Fb Htail Hshort.
  pose proof (SpectrumFromStr_spaced k1 k2 k3 r g b tail
                Hr Hg Hb Fr Fg Fb Htail Hshort) as Hparse.
  fold s color in Hparse. split; [exact Hparse|].
  exists (ConstantTexture.Mk color). unfold ConstantTexture.SetValue.
  by rewrite Hparse.
Qed.

(** X20. The first token of a transform only counts by its first
    character: "translate 1 2 3" and "t 1 2 3" give the same transform. *)
Theorem TransformFromStr_first_character (c : ascii) (kind1 kind2 rest : string) :
  c <> space ->
  find_first_of kind1 space = None -> find_first_of kind2 space = None ->
  short (String c kind1 +++ String space rest) ->
  short (String c kind2 +++ String space rest) ->
  TransformFromStr atof atoi (String c kind1 +++ String space rest)
  = TransformFromStr atof atoi (String c kind2 +++ String space rest).
Proof.
  intros Hc F1 F2 S1 S2. unfold TransformFromStr.
  assert (Hfind : forall kind, find_first_of kind space = None ->
                    find_first_of (String c kind) space = None).
  { intros kind Hk. simpl. destruct (Ascii.eqb_spec c space); [done|].
    by rewrite Hk. }
  change (empty (String c kind1 +++ String space rest)) with false.
  change (empty (String c kind2 +++ String space rest)) with false.
  cbv iota zeta.
  rewrite !NextToken_word_then by auto.
  reflexivity.
Qed.

(** X21. A scale reads one number or three: "s a" is the uniform scale by
    [a]; "s a b c" scales by [a], [b], [c]; with exactly two numbers the
    second is dropped without a warning and the scale is uniform by [a]. *)
Theorem TransformFromStr_scale (kind a b c : string) :
  let K := String "s" kind in
  find_first_of kind space = None ->
  a <> EmptyString -> find_first_of a space = None ->
  find_first_of b space = None ->
  c <> EmptyString -> find_first_of c space = None ->
  (short (K +++ String space a) ->
     TransformFromStr atof atoi (K +++ String space a)
     = Some (Scale (atof a) (atof a) (atof a), []))
  /\ (short (K +++ String space (a +++ String space b)) ->
      TransformFromStr atof atoi (K +++ String space (a +++ String space b))
      = Some (Scale (atof a) (atof a) (atof a), []))
  /\ (b <> EmptyString ->
      short (K +++ String space (a +++ String space (b +++ String space c))) ->
      TransformFromStr atof atoi
        (K +++ String space (a +++ String space (b +++ String space c)))
      = Some (Scale (atof a) (atof b) (atof c), [])).
Proof.
  intros K Fk Ha Fa Fb Hc Fc.
  assert (FK : find_first_of K space = None) by (simpl; by rewrite Fk).
  assert (HK : K <> EmptyString) by done.
  unfold TransformFromStr.
  split; [|split].
  - intros Hshort. change (empty (K +++ String space a)) with false. cbv iota zeta.
    rewrite NextToken_word_then by done. cbn [mbind option_bind first_char K].
    change (Ascii.eqb "s" "t") with false. change (Ascii.eqb "s" "r") with false.
    change (Ascii.eqb "s" "s") with true. cbv iota.
    rewrite NextToken_word by eauto using short_app_r, short_tail.
    cbn [mbind option_bind]. rewrite NextToken_empty. reflexivity.
  - intros Hshort.
    change (empty (K +++ String space (a +++ String space b))) with false.
    cbv iota zeta.
    rewrite NextToken_word_then by done. cbn [mbind option_bind first_char K].
    change (Ascii.eqb "s" "t") with false. change (Ascii.eqb "s" "r") with false.
    change (Ascii.eqb "s" "s") with true. cbv iota.
    pose proof (short_tail _ _ (short_app_r _ _ Hshort)) as Hshort1.
    rewrite NextToken_word_then by done. cbn [mbind option_bind].
    rewrite NextToken_word by eauto using short_app_r, short_tail.
    reflexivity.
  - intros Hb Hshort.
    change (empty (K +++ String space (a +++ String space (b +++ String space c))))
      with false.
    cbv iota zeta.
    rewrite NextToken_word_then by done. cbn [mbind option_bind first_char K].
    change (Ascii.eqb "s" "t") with false. change (Ascii.eqb "s" "r") with false.
    change (Ascii.eqb "s" "s") with true. cbv iota.
    pose proof (short_tail _ _ (short_app_r _ _ Hshort)) as Hshort1.
    pose proof (short_tail _ _ (short_app_r _ _ Hshort1)) as Hshort2.
    rewrite NextToken_word_then by done. cbn [mbind option_bind].
    rewrite NextToken_word_then by done. cbn [mbind option_bind].
    destruct c as [|c0 c]; [done|]. cbn [empty negb]. cbv iota.
    rewrite NextToken_word by eauto using short_app_r, short_tail.
    reflexivity.
Qed.

(** X22. A rotation reads an axis and an angle: axis 0, 1, 2 gives the
    rotation about X, Y, Z; any other axis gives the default transform, and
    no warning is logged. *)
Theorem TransformFromStr_rotate (kind a angle : string) :
  let K := String "r" kind in
  let s := K +++ String space (a +++ String space angle) in
  find_first_of kind space = None ->
  a <> EmptyString -> find_first_of a space = None ->
  find_first_of angle space = None ->
  short s ->
  TransformFromStr atof atoi s
  = Some (match atoi a with
          | 0 => RotateX (atof angle)
          | 1 => RotateY (atof angle)
          | 2 => RotateZ (atof angle)
          | _ => Transform_default
          end, []).
Proof.
  intros K s Fk Ha Fa Fangle Hshort. subst s.
  assert (FK : find_first_of K space = None) by (simpl; by rewrite Fk).
  assert (HK : K <> EmptyString) by done.
  unfold TransformFromStr.
  change (empty (K +++ String space (a +++ String space angle))) with false.
  cbv iota zeta.
  rewrite NextToken_word_then by done. cbn [mbind option_bind first_char K].
  change (Ascii.eqb "r" "t") with false. change (Ascii.eqb "r" "r") with true.
  cbv iota.
  pose proof (short_tail _ _ (short_app_r _ _ Hshort)) as Hshort1.
  rewrite NextToken_word_then by done. cbn [mbind option_bind].
  rewrite NextToken_word by eauto using short_app_r, short_tail.
  cbn [mbind option_bind].
  destruct (atoi a) as [|[p|[p|p|]|]|p]; reflexivity.
Qed.

(** [NextToken] and the loop of the matrix branch never throw. *)
Lemma NextToken_total (str : string) (t : ascii) :
  exists res rest, NextToken str t = Some (res, rest).
Proof.
  unfold NextToken. set (s := skip_while_first str t).
  rewrite substr_prefix. cbn [mbind option_bind].
  set (id := to_unsigned (find_first_of s t)).
  pose proof (to_unsigned_range (find_first_of s t)) as Hid. fold id in Hid.
  destruct (id =? unsigned_npos) eqn:Hnpos; [by eexists _, _|].
  apply Z.eqb_neq in Hnpos. unfold unsigned_npos in Hnpos.
  rewrite Z.mod_small by lia.
  destruct (find_first_of s t) as [p|] eqn:Hfind; [|done].
  apply find_first_of_lt in Hfind.
  assert (Hle : id <= Z.of_nat p).
  { unfold id. simpl. apply Z.mod_le; lia. }
  rewrite substr_suffix by (unfold size; lia).
  by eexists _, _.
Qed.

Lemma read_matrix_total (n : nat) (str : string) :
  exists m, read_matrix atof n str = Some m.
Proof.
  revert str. induction n as [|n IH]; intros str; [by eexists|].
  cbn [read_matrix].
  destruct (NextToken_total str space) as (t & str' & ->).
  cbn [mbind option_bind].
  destruct (IH str') as [m ->]. by eexists.
Qed.

(** What the loop of [NextToken] leaves starts with no delimiter that the
    32-bit index sees. *)
Lemma skip_while_first_stops (str : string) (t : ascii) :
  skip_while_first str t = EmptyString
  \/ to_unsigned (find_first_of (skip_while_first str t) t) <> 0.
Proof.
  induction str as [|c str IH]; [by left|].
  cbn [skip_while_first].
  destruct (to_unsigned (find_first_of (String c str) t) =? 0) eqn:Hid; [exact IH|].
  right. by apply Z.eqb_neq.
Qed.

(** The token starts with the character the loop stopped at. *)
Lemma NextToken_first_char (str : string) (t : ascii) :
  exists res rest,
    NextToken str t = Some (res, rest)
    /\ first_char res = first_char (skip_while_first str t).
Proof.
  destruct (NextToken_total str t) as (res & rest & Hnext).
  exists res, rest. split; [exact Hnext|].
  unfold NextToken in Hnext. rewrite substr_prefix in Hnext.
  cbn [mbind option_bind] in Hnext.
  assert (Hres : res = take (Z.to_nat (Z.min (to_unsigned (find_first_of
                   (skip_while_first str t) t)) (size (skip_while_first str t))))
                   (skip_while_first str t)).
  { destruct (_ =? unsigned_npos); [by injection Hnext|].
    destruct (substr _ _ None); [by injection Hnext|done]. }
  rewrite Hres. clear Hnext Hres.
  destruct (skip_while_first_stops str t) as [->|Hid]; [by destruct (Z.to_nat _)|].
  pose proof (to_unsigned_range (find_first_of (skip_while_first str t) t)) as Hr.
  destruct (skip_while_first str t) as [|c s]; [by destruct (Z.to_nat _)|].
  destruct (Z.to_nat _) eqn:Hn; [|reflexivity].
  unfold size in Hn. simpl String.length in Hn. lia.
Qed.

(** Leading spaces are what the loop of [NextToken] removes. *)
Lemma skip_while_first_leading (k : nat) (w : string) (t : ascii) :
  short (fill k t +++ w) -> first_char w <> t ->
  skip_while_first (fill k t +++ w) t = w.
Proof.
  intros Hshort Hc. rewrite skip_fill by done.
  destruct w as [|c w]; [done|]. cbn [first_char] in Hc.
  apply short_app_r in Hshort.
  cbn [skip_while_first].
  destruct (find_first_of (String c w) t) as [p|] eqn:Hp; [|reflexivity].
  pose proof (find_first_of_lt _ _ _ Hp) as Hlt.
  assert (Hp0 : p <> 0%nat).
  { simpl in Hp. destruct (Ascii.eqb_spec c t); [done|].
    destruct (find_first_of w t); simpl in Hp; [|done].
    injection Hp as <-. lia. }
  cbn [to_unsigned]. unfold short, size in Hshort.
  rewrite Z.mod_small by lia.
  by replace (Z.of_nat p =? 0) with false by (symmetry; apply Z.eqb_neq; lia).
Qed.

Ltac next_token :=
  match goal with
  | |- context [NextToken ?a ?c] =>
      destruct (NextToken_total a c) as (? & ? & ->); cbn [mbind option_bind]
  end.

(** X23. Only the empty string logs the warning: every string that is not
    empty is parsed without a failure and without a warning. Such a string,
    shorter than [2^32 − 1] characters, whose first character after its
    leading spaces is none of [t], [r], [s], [m] gives the default
    transform: a bare word, a word followed by more text, and a string of
    spaces only (every string is [k] spaces followed by a string [w] that
    does not start with a space). *)
Theorem TransformFromStr_unrecognised (k : nat) (w : string) :
  let s := fill k space +++ w in
  let c := first_char w in
  s <> EmptyString ->
  (exists tr, TransformFromStr atof atoi s = Some (tr, []))
  /\ (short s ->
      c <> space -> c <> "t"%char -> c <> "r"%char -> c <> "s"%char ->
      c <> "m"%char ->
      TransformFromStr atof atoi s = Some (Transform_default, [])).
Proof.
  intros s c Hs.
  assert (Hempty : empty s = false) by by destruct s.
  unfold TransformFromStr. rewrite Hempty. split.
  - next_token.
    repeat match goal with |- context [Ascii.eqb ?a ?b] => destruct (Ascii.eqb a b) end.
    + do 3 next_token. by eexists.
    + do 2 next_token.
      repeat match goal with |- context [?a =? ?b] => destruct (a =? b) end;
        by eexists.
    + do 2 next_token.
      match goal with |- context [negb ?b] => destruct (negb b) end;
        [next_token|]; by eexists.
    + match goal with |- context [read_matrix _ ?n ?a] =>
        destruct (read_matrix_total n a) as [m ->] end.
      by eexists.
    + by eexists.
  - intros Hshort Hsp Ht Hr Hs' Hm.
    destruct (NextToken_first_char s space) as (tok & rest & -> & Hc).
    cbn [mbind option_bind]. rewrite Hc.
    unfold s. rewrite skip_while_first_leading by done. fold c.
    by destruct (Ascii.eqb_spec c "t"), (Ascii.eqb_spec c "r"),
      (Ascii.eqb_spec c "s"), (Ascii.eqb_spec c "m").
Qed.
End ParserFacts.

(** ** The properties of the parsers on concrete strings *)

Lemma NextToken_tokens_witness :
  NextToken "  ab cd  ef" " " = Some ("ab", "cd  ef")%string.
Proof.
  apply (proj1 (NextToken_tokens 2 "ab" "cd  ef" " " eq_refl)).
  - discriminate.
  - unfold short. vm_compute. reflexivity.
Defined.

Lemma ConstantTexture_SetValue_GetColor_witness :
  SpectrumFromStr Samples.atof Fixtures.black " 1  2 3 x"
  = Some (MkSpectrum one two (of_Z 3)).
Proof.
  apply (proj1 (ConstantTexture_SetValue_GetColor Samples.atof Fixtures.black
                  1 1 0 "1" "2" "3" " x" (ConstantTexture.Mk Fixtures.black)
                  ltac:(discriminate) ltac:(discriminate) ltac:(discriminate)
                  eq_refl eq_refl eq_refl
                  (or_intror (ex_intro _ "x"%string eq_refl))
                  ltac:(unfold short; vm_compute; reflexivity))).
Defined.

Lemma TransformFromStr_first_character_witness :
  TransformFromStr Samples.atof Samples.atoi "translate 1 2 3"
  = TransformFromStr Samples.atof Samples.atoi "t 1 2 3".
Proof.
  apply (TransformFromStr_first_character Samples.atof Samples.atoi
           "t" "ranslate" "" "1 2 3");
    [discriminate|reflexivity|reflexivity
    |unfold short; vm_compute; reflexivity|unfold short; vm_compute; reflexivity].
Defined.

Example translate_1_2_3 :
  TransformFromStr Samples.atof Samples.atoi "translate 1 2 3"
  = Some (Translate one two (of_Z 3), []).
Proof. vm_compute. reflexivity. Qed.

Lemma TransformFromStr_scale_witness :
  TransformFromStr Samples.atof Samples.atoi "s 2 3"
  = Some (Scale two two two, []).
Proof.
  apply (proj1 (proj2 (TransformFromStr_scale Samples.atof Samples.atoi
                         "" "2" "3" "4" eq_refl ltac:(discriminate) eq_refl eq_refl
                         ltac:(discriminate) eq_refl))).
  unfold short. vm_compute. reflexivity.
Defined.

Lemma TransformFromStr_rotate_witness :
  TransformFromStr Samples.atof Samples.atoi "rotate 7 3"
  = Some (Transform_default, []).
Proof.
  apply (TransformFromStr_rotate Samples.atof Samples.atoi "otate" "7" "3"
           eq_refl ltac:(discriminate) eq_refl eq_refl).
  unfold short. vm_compute. reflexivity.
Defined.

Lemma TransformFromStr_unrecognised_witness :
  TransformFromStr Samples.atof Samples.atoi "xyz" = Some (Transform_default, [])
  /\ TransformFromStr Samples.atof Samples.atoi "   " = Some (Transform_default, [])
  /\ TransformFromStr Samples.atof Samples.atoi "  box 1 2 3"
     = Some (Transform_default, []).
Proof.
  split; [|split].
  - apply (proj2 (TransformFromStr_unrecognised Samples.atof Samples.atoi 0 "xyz"
                    ltac:(discriminate)));
      [unfold short; vm_compute; reflexivity|discriminate..].
  - apply (proj2 (TransformFromStr_unrecognised Samples.atof Samples.atoi 3 ""
                    ltac:(discriminate)));
      [unfold short; vm_compute; reflexivity|discriminate..].
  - apply (proj2 (TransformFromStr_unrecognised Samples.atof Samples.atoi 2 "box 1 2 3"
                    ltac:(discriminate)));
      [unfold short; vm_compute; reflexivity|discriminate..].
Defined.

(** The empty string is the one case that logs a warning. *)
Example TransformFromStr_empty :
  TransformFromStr Samples.atof Samples.atoi ""
  = Some (Transform_default, ["No value set in the transformation"%string]).
Proof. reflexivity. Qed.
